(** * Atomic chess (ChessVar.py): a shallow embedding and its specification

    The Python class [ChessVar] keeps an 8x8 board of one-character strings
    (upper case = white, lower case = black, [" "] = empty square), the side
    to move (['W'] or ['B']) and the game state.  [make_move] mutates the
    object in place and may raise ([ValueError], [IndexError]); we model it
    in a state-and-exception monad whose result carries the object as it
    is when the call returns or raises. *)

From Stdlib Require Import ZArith Ascii String Bool Lia Sorting.Sorted.
From stdpp Require Import base list.

Open Scope Z_scope.

(* ------------------------------------------------------------------ *)
(** ** Python values *)

(** The exceptions the code can raise. *)
Inductive exn := ValueError | IndexError.

(** A pure Python computation that may raise. *)
Definition exc (A : Type) := (exn + A)%type.

Definition xret {A} (a : A) : exc A := inr a.
Definition xbind {A B} (m : exc A) (k : A -> exc B) : exc B :=
  match m with inl e => inl e | inr a => k a end.

Notation "'let!' x := m 'in' k" := (xbind m (fun x => k))
  (at level 200, x name, m at level 100, k at level 200).

(** [str.lower], [str.islower], [str.isupper] on a one-character ASCII
    string. *)
Definition lower (c : ascii) : ascii :=
  let n := nat_of_ascii c in
  if (65 <=? n)%nat && (n <=? 90)%nat then ascii_of_nat (n + 32) else c.

Definition islower (c : ascii) : bool :=
  let n := nat_of_ascii c in (97 <=? n)%nat && (n <=? 122)%nat.

Definition isupper (c : ascii) : bool :=
  let n := nat_of_ascii c in (65 <=? n)%nat && (n <=? 90)%nat.

Definition ceq (a b : ascii) : bool := Ascii.eqb a b.

(** [int(row)] for a one-character string: only a decimal digit parses. *)
Definition py_int (c : ascii) : exc Z :=
  let n := nat_of_ascii c in
  if (48 <=? n)%nat && (n <=? 57)%nat then inr (Z.of_nat n - 48)
  else inl ValueError.

(** [ord(c)]. *)
Definition ord (c : ascii) : Z := Z.of_nat (nat_of_ascii c).

(** Python list indexing [l[i]]: negative indices count from the end,
    anything else out of range raises [IndexError]. *)
Definition py_index {A} (l : list A) (i : Z) : option nat :=
  let n := Z.of_nat (length l) in
  if (0 <=? i) && (i <? n) then Some (Z.to_nat i)
  else if (- n <=? i) && (i <? 0) then Some (Z.to_nat (n + i))
  else None.

Definition py_get {A} (l : list A) (i : Z) : exc A :=
  match py_index l i with
  | Some k => match l !! k with Some x => inr x | None => inl IndexError end
  | None => inl IndexError
  end.

(** [l[i] = x]. *)
Definition py_set {A} (l : list A) (i : Z) (x : A) : exc (list A) :=
  match py_index l i with
  | Some k => inr (<[k := x]> l)
  | None => inl IndexError
  end.

(** [range(start, stop, step)] for [step] equal to [1] or [-1], the only
    steps the code uses. *)
Definition py_range (start stop step : Z) : list Z :=
  map (fun k => start + step * Z.of_nat k)
      (seq 0 (Z.to_nat ((stop - start) * step))).

(* ------------------------------------------------------------------ *)
(** ** The object *)

Abbreviation Board := (list (list ascii)).

(** [self._current_turn]: ['W'] or ['B']. *)
Inductive Turn := W | B.

(** [self._game_state]. *)
Inductive GameState := UNFINISHED | WHITE_WON | BLACK_WON.

Definition turn_eqb (a b : Turn) : bool :=
  match a, b with W, W | B, B => true | _, _ => false end.

Definition gs_eqb (a b : GameState) : bool :=
  match a, b with
  | UNFINISHED, UNFINISHED | WHITE_WON, WHITE_WON | BLACK_WON, BLACK_WON => true
  | _, _ => false
  end.

Record ChessVar := mkChessVar {
  _board : Board;
  _current_turn : Turn;
  _game_state : GameState
}.

(** [self._board[i][j]]. *)
Definition get2 (b : Board) (i j : Z) : exc ascii :=
  let! row := py_get b i in py_get row j.

(** [self._board[i][j] = v]: the row list is updated in place. *)
Definition set2 (b : Board) (i j : Z) (v : ascii) : exc Board :=
  let! row := py_get b i in
  let! row' := py_set row j v in
  py_set b i row'.

Definition row_of (s : string) : list ascii := list_ascii_of_string s.

(** [__init__]. *)
Definition initial_board : Board :=
  map row_of
    [ "rnbqkbnr"; "pppppppp"; "        "; "        ";
      "        "; "        "; "PPPPPPPP"; "RNBQKBNR" ]%string.

Definition new_ChessVar : ChessVar :=
  {| _board := initial_board; _current_turn := W; _game_state := UNFINISHED |}.

Definition get_game_state (g : ChessVar) : GameState := _game_state g.

(* ------------------------------------------------------------------ *)
(** ** State-and-exception monad for the methods that mutate [self] *)

Definition ST (A : Type) := ChessVar -> exc A * ChessVar.

Definition st_ret {A} (a : A) : ST A := fun g => (inr a, g).
Definition st_bind {A B} (m : ST A) (k : A -> ST B) : ST B :=
  fun g => match m g with
           | (inl e, g') => (inl e, g')
           | (inr a, g') => k a g'
           end.

Notation "x <- m ;; k" := (st_bind m (fun x => k))
  (at level 62, m at next level, right associativity).
Notation "m ;;; k" := (st_bind m (fun _ => k))
  (at level 62, right associativity).

(** Evaluate a pure expression over [self] (it may raise). *)
Definition reads {A} (f : ChessVar -> exc A) : ST A := fun g => (f g, g).

Definition lift {A} (m : exc A) : ST A := reads (fun _ => m).

Definition get_cell (i j : Z) : ST ascii := reads (fun g => get2 (_board g) i j).
Definition get_turn : ST Turn := reads (fun g => inr (_current_turn g)).
Definition get_state : ST GameState := reads (fun g => inr (_game_state g)).

Definition set_cell (i j : Z) (v : ascii) : ST unit := fun g =>
  match set2 (_board g) i j v with
  | inl e => (inl e, g)
  | inr b' => (inr tt, {| _board := b'; _current_turn := _current_turn g;
                          _game_state := _game_state g |})
  end.

Definition set_turn (t : Turn) : ST unit := fun g =>
  (inr tt, {| _board := _board g; _current_turn := t; _game_state := _game_state g |}).

Definition set_state (s : GameState) : ST unit := fun g =>
  (inr tt, {| _board := _board g; _current_turn := _current_turn g; _game_state := s |}).

(** A [for] loop whose body only runs for its effect. *)
Fixpoint st_for {A} (l : list A) (body : A -> ST unit) : ST unit :=
  match l with
  | [] => st_ret tt
  | x :: l' => body x ;;; st_for l' body
  end.

(* ------------------------------------------------------------------ *)
(** ** [_convert_square_to_indices] *)

(** [column, row = square] raises [ValueError] unless [square] has exactly
    two characters; [int(row)] raises unless [row] is a digit. *)
Definition _convert_square_to_indices (square : string) : exc (Z * Z) :=
  match square with
  | String column (String row EmptyString) =>
      let! r := py_int row in xret (8 - r, ord column - ord "a"%char)
  | _ => inl ValueError
  end.

(* ------------------------------------------------------------------ *)
(** ** [_is_valid_move] *)

Section ValidMove.

Variable board : Board.
Variable current_turn : Turn.

(** [self._board[next_row][next_col] == ' ' or
     self._board[next_row][next_col].islower() != piece.islower()] *)
Definition dest_ok (piece : ascii) (next_row next_col : Z) : exc bool :=
  let! d := get2 board next_row next_col in
  xret (ceq d " " || negb (Bool.eqb (islower d) (islower piece))).

(** [for x in xs: if not clear(x): return False], [true] when the loop
    completes. *)
Fixpoint all_clear (clear : Z -> exc bool) (xs : list Z) : exc bool :=
  match xs with
  | [] => xret true
  | x :: xs' => let! ok := clear x in if ok then all_clear clear xs' else xret false
  end.

(** The diagonal [while row != next_row] loop of the bishop and the queen.
    On the 8-row board the loop stops after at most [|row - next_row| + 10]
    rounds: it walks towards [next_row], or (when [start_row = next_row],
    stepping by [-1] away from it) it reaches the square itself through
    negative indexing or raises [IndexError] past index [-8]; [fuel] is
    chosen above that bound. *)
Fixpoint diag_clear (fuel : nat) (row col next_row row_step col_step : Z)
  : exc bool :=
  match fuel with
  | O => xret false
  | S fuel' =>
      if row =? next_row then xret true
      else let! c := get2 board row col in
           if negb (ceq c " ") then xret false
           else diag_clear fuel' (row + row_step) (col + col_step)
                  next_row row_step col_step
  end.

Definition diag_fuel (start_row next_row : Z) : nat :=
  Z.to_nat (Z.abs (start_row - next_row) + 20).

Definition step_of (a b : Z) : Z := if a <? b then 1 else -1.

(** [(self._current_turn == 'W' and start_row - next_row == 1) or
     (self._current_turn == 'B' and next_row - start_row == 1)] *)
Definition pawn_one_forward (start_row next_row : Z) : bool :=
  (turn_eqb current_turn W && (start_row - next_row =? 1))
  || (turn_eqb current_turn B && (next_row - start_row =? 1)).

Definition _is_valid_move (piece : ascii) (start_row start_col next_row next_col : Z)
  : exc bool :=
  if ceq (lower piece) "k" then
    if (Z.abs (start_row - next_row) <=? 1) && (Z.abs (start_col - next_col) <=? 1)
    then dest_ok piece next_row next_col
    else xret false
  else if ceq (lower piece) "p" then
    if start_col =? next_col then
      if pawn_one_forward start_row next_row then
        let! d := get2 board next_row next_col in xret (ceq d " ")
      else if (turn_eqb current_turn W && (start_row =? 6) && (next_row =? 4))
              || (turn_eqb current_turn B && (start_row =? 1) && (next_row =? 3)) then
        let! d := get2 board next_row next_col in
        if ceq d " " then
          let! m := get2 board ((start_row + next_row) / 2) next_col in xret (ceq m " ")
        else xret false
      else xret false
    else if (Z.abs (start_col - next_col) =? 1) && pawn_one_forward start_row next_row then
      let! d := get2 board next_row next_col in
      xret (negb (ceq d " ") && negb (Bool.eqb (islower d) (islower piece)))
    else xret false
  else if ceq (lower piece) "r" then
    if negb (start_row =? next_row) && negb (start_col =? next_col) then xret false
    else
      let! clear :=
        if start_row =? next_row then
          let step := step_of start_col next_col in
          all_clear (fun col =>
              if negb ((0 <=? col) && (col <? 8)) then xret false
              else let! c := get2 board start_row col in xret (ceq c " "))
            (py_range (start_col + step) next_col step)
        else
          let step := step_of start_row next_row in
          all_clear (fun row =>
              if negb ((0 <=? row) && (row <? 8)) then xret false
              else let! c := get2 board row start_col in xret (ceq c " "))
            (py_range (start_row + step) next_row step) in
      if clear then dest_ok piece next_row next_col else xret false
  else if ceq (lower piece) "n" then
    let row_diff := Z.abs (next_row - start_row) in
    let col_diff := Z.abs (next_col - start_col) in
    (* [A or B and C] parses as [A or (B and C)] *)
    if (row_diff =? 1) && (col_diff =? 2) then xret true
    else if (row_diff =? 2) && (col_diff =? 1) then dest_ok piece next_row next_col
    else xret false
  else if ceq (lower piece) "b" then
    if negb (Z.abs (start_row - next_row) =? Z.abs (start_col - next_col)) then xret false
    else
      let row_step := step_of start_row next_row in
      let col_step := step_of start_col next_col in
      let! clear := diag_clear (diag_fuel start_row next_row)
                      (start_row + row_step) (start_col + col_step)
                      next_row row_step col_step in
      if clear then dest_ok piece next_row next_col else xret false
  else if ceq (lower piece) "q" then
    let! clear :=
      if start_row =? next_row then
        let step := step_of start_col next_col in
        all_clear (fun col => let! c := get2 board start_row col in xret (ceq c " "))
          (py_range (start_col + step) next_col step)
      else if start_col =? next_col then
        let step := step_of start_row next_row in
        all_clear (fun row => let! c := get2 board row start_col in xret (ceq c " "))
          (py_range (start_row + step) next_row step)
      else if Z.abs (start_row - next_row) =? Z.abs (start_col - next_col) then
        let row_step := step_of start_row next_row in
        let col_step := step_of start_col next_col in
        diag_clear (diag_fuel start_row next_row)
          (start_row + row_step) (start_col + col_step) next_row row_step col_step
      else xret false in
    if clear then dest_ok piece next_row next_col else xret false
  else
    (* an unrecognised piece falls off the end: [None], which is falsy *)
    xret false.

End ValidMove.

(* ------------------------------------------------------------------ *)
(** ** [_explosion] *)

(** The body of the inner loop at square [(i, j)]. *)
Definition explode_square (i j : Z) : ST unit :=
  c <- get_cell i j ;;
  if negb (ceq (lower c) "p") then
    (if ceq (lower c) "k" then
       c' <- get_cell i j ;;
       set_state (if ceq c' "K" then BLACK_WON else WHITE_WON)
     else st_ret tt) ;;;
    set_cell i j " "
  else st_ret tt.

Definition _explosion (row col : Z) : ST unit :=
  st_for (py_range (Z.max 0 (row - 1)) (Z.min 8 (row + 2)) 1) (fun i =>
    st_for (py_range (Z.max 0 (col - 1)) (Z.min 8 (col + 2)) 1) (fun j =>
      explode_square i j)).

(* ------------------------------------------------------------------ *)
(** ** [make_move] *)

(** Lines 64-72 of [make_move]: move the piece, and on a capture set the
    game state for a king and explode. *)
Definition apply_move (piece : ascii) (start_row start_col next_row to_col : Z)
  : ST unit :=
  captured_piece <- get_cell next_row to_col ;;
  set_cell next_row to_col piece ;;;
  set_cell start_row start_col " " ;;;
  if negb (ceq captured_piece " ") then
    (if ceq (lower captured_piece) "k" || ceq (lower piece) "k" then
       set_state (if ceq (lower captured_piece) "k" then WHITE_WON else BLACK_WON)
     else st_ret tt) ;;;
    _explosion next_row to_col
  else st_ret tt.

(** Lines 75-76: update the turn if the game is still going. *)
Definition update_turn : ST unit :=
  st <- get_state ;;
  if gs_eqb st UNFINISHED then
    t <- get_turn ;;
    set_turn (if turn_eqb t W then B else W)
  else st_ret tt.

(** The part of [make_move] after [_is_valid_move] returned a true value. *)
Definition execute_move (piece : ascii) (start_row start_col next_row to_col : Z)
  : ST bool :=
  apply_move piece start_row start_col next_row to_col ;;;
  update_turn ;;;
  st_ret true.

(** [not piece] is never true: a square holds a one-character string. *)
Definition make_move (start_square next_square : string) : ST bool :=
  st <- get_state ;;
  if negb (gs_eqb st UNFINISHED) then st_ret false else
  s <- lift (_convert_square_to_indices start_square) ;;
  let (start_row, start_col) := s in
  n <- lift (_convert_square_to_indices next_square) ;;
  let (next_row, to_col) := n in
  if negb ((0 <=? next_row) && (next_row <? 8) && (0 <=? to_col) && (to_col <? 8))
  then st_ret false else
  piece <- get_cell start_row start_col ;;
  t <- get_turn ;;
  if (islower piece && turn_eqb t W) || (isupper piece && turn_eqb t B)
  then st_ret false else
  valid <- reads (fun g => _is_valid_move (_board g) (_current_turn g)
                             piece start_row start_col next_row to_col) ;;
  if valid then execute_move piece start_row start_col next_row to_col
  else st_ret false.

(* ------------------------------------------------------------------ *)
(** ** Scenarios *)

Example scenario_A :
  let '(r, g) := make_move "e2" "e4" new_ChessVar in
  r = inr true /\ _current_turn g = B /\ get2 (_board g) 4 4 = inr "P"%char
  /\ get2 (_board g) 6 4 = inr " "%char.
Proof. vm_compute. auto. Qed.

Example scenario_B : make_move "e2" "e5" new_ChessVar = (inr false, new_ChessVar).
Proof. vm_compute. reflexivity. Qed.

Example knight_onto_own_pawn :
  let '(r, g) := make_move "b1" "d2" new_ChessVar in
  r = inr true /\ _game_state g = BLACK_WON.
Proof. vm_compute. auto. Qed.

(* ------------------------------------------------------------------ *)
(** ** Specification vocabulary *)

(** The board the object always has: 8 rows of 8 squares. *)
Definition wf_board (b : Board) : Prop :=
  length b = 8%nat /\ Forall (fun row : list ascii => length row = 8%nat) b.

(** The list index a Python index in [-8, 8) denotes on a list of 8. *)
Definition nidx (i : Z) : nat := Z.to_nat (i mod 8).

(* ------------------------------------------------------------------ *)
(** ** Python indexing on the 8x8 board *)

Lemma py_index_8 {A} (l : list A) (i : Z) :
  length l = 8%nat -> -8 <= i < 8 -> py_index l i = Some (nidx i).
Proof.
  intros Hl Hi. unfold py_index, nidx. rewrite Hl. change (Z.of_nat 8) with 8.
  destruct (Z.leb_spec 0 i).
  - destruct (Z.ltb_spec i 8); [|lia]. simpl.
    rewrite Z.mod_small; [reflexivity | lia].
  - destruct (Z.leb_spec (Z.opp 8) i); [|lia]. destruct (Z.ltb_spec i 0); [|lia].
    cbn [andb]. f_equal.
    assert (i mod 8 = i + 8) as ->; [|lia].
    rewrite <- (Z_mod_plus_full i 1). rewrite Z.mod_small; lia.
Qed.

Lemma nidx_lt (i : Z) : (nidx i < 8)%nat.
Proof.
  unfold nidx. pose proof (Z.mod_pos_bound i 8 ltac:(lia)). lia.
Qed.

Lemma nidx_id (i : Z) : 0 <= i < 8 -> nidx i = Z.to_nat i.
Proof. intros. unfold nidx. rewrite Z.mod_small; lia. Qed.

Lemma py_get_8 {A} (l : list A) (i : Z) :
  length l = 8%nat -> -8 <= i < 8 ->
  exists x, l !! nidx i = Some x /\ py_get l i = inr x.
Proof.
  intros Hl Hi. unfold py_get. rewrite (py_index_8 l i Hl Hi).
  destruct (lookup_lt_is_Some_2 l (nidx i)) as [x Hx].
  { rewrite Hl. apply nidx_lt. }
  exists x. rewrite Hx. auto.
Qed.

Lemma py_set_8 {A} (l : list A) (i : Z) (x : A) :
  length l = 8%nat -> -8 <= i < 8 -> py_set l i x = inr (<[nidx i := x]> l).
Proof. intros Hl Hi. unfold py_set. rewrite (py_index_8 l i Hl Hi). reflexivity. Qed.

(** The square [(i, j)] of the board, by list position. *)
Definition cell (b : Board) (i j : nat) : option ascii :=
  b !! i ≫= fun row => row !! j.

Lemma wf_cell (b : Board) (i j : nat) :
  wf_board b -> (i < 8)%nat -> (j < 8)%nat -> exists x, cell b i j = Some x.
Proof.
  intros [Hb Hr] Hi Hj. unfold cell.
  destruct (lookup_lt_is_Some_2 b i) as [row Hrow]; [lia|].
  rewrite Hrow. simpl.
  assert (length row = 8%nat) as Hl.
  { rewrite Forall_lookup in Hr. eauto. }
  destruct (lookup_lt_is_Some_2 row j) as [x Hx]; [lia|]. eauto.
Qed.

Lemma get2_cell (b : Board) (i j : Z) :
  wf_board b -> -8 <= i < 8 -> -8 <= j < 8 ->
  exists x, cell b (nidx i) (nidx j) = Some x /\ get2 b i j = inr x.
Proof.
  intros [Hb Hr] Hi Hj. unfold get2, cell.
  destruct (py_get_8 b i Hb Hi) as [row [Hrow Hg]]. rewrite Hg, Hrow. simpl.
  assert (length row = 8%nat) as Hl.
  { rewrite Forall_lookup in Hr. eauto. }
  destruct (py_get_8 row j Hl Hj) as [x [Hx Hg']]. eauto.
Qed.

Lemma set2_cell (b : Board) (i j : Z) (v : ascii) :
  wf_board b -> -8 <= i < 8 -> -8 <= j < 8 ->
  exists b', set2 b i j v = inr b' /\ wf_board b' /\
    forall i' j', cell b' i' j' =
      if decide (i' = nidx i /\ j' = nidx j) then Some v else cell b i' j'.
Proof.
  intros [Hb Hr] Hi Hj. unfold set2.
  destruct (py_get_8 b i Hb Hi) as [row [Hrow Hg]]. rewrite Hg. simpl.
  assert (length row = 8%nat) as Hl.
  { rewrite Forall_lookup in Hr. eauto. }
  rewrite (py_set_8 row j v Hl Hj). simpl.
  rewrite (py_set_8 b i _ Hb Hi).
  eexists; split; [reflexivity|]. split.
  - split; [rewrite length_insert; exact Hb|].
    apply Forall_insert; [exact Hr|]. rewrite length_insert. exact Hl.
  - intros i' j'. unfold cell.
    destruct (decide (i' = nidx i)) as [->|Hne].
    + rewrite list_lookup_insert_eq by (rewrite Hb; apply nidx_lt). simpl.
      rewrite Hrow. simpl.
      destruct (decide (j' = nidx j)) as [->|Hne'].
      * rewrite list_lookup_insert_eq by (rewrite Hl; apply nidx_lt).
        rewrite decide_True by auto. reflexivity.
      * rewrite list_lookup_insert_ne by auto.
        rewrite decide_False by (intros [_ ?]; auto). reflexivity.
    + rewrite list_lookup_insert_ne by auto.
      rewrite decide_False by (intros [? _]; auto). reflexivity.
Qed.

(* ------------------------------------------------------------------ *)
(** ** Frame properties of the monadic code *)

(** Every run of [m], returning or raising, relates the object before and
    after by [P]. *)
Definition keeps (P : ChessVar -> ChessVar -> Prop) {A} (m : ST A) : Prop :=
  forall g r g', m g = (r, g') -> P g g'.

Definition preorder_on (P : ChessVar -> ChessVar -> Prop) : Prop :=
  (forall g, P g g) /\ (forall g1 g2 g3, P g1 g2 -> P g2 g3 -> P g1 g3).

Section Frame.

Variable P : ChessVar -> ChessVar -> Prop.
Hypothesis HP : preorder_on P.

Lemma keeps_ret {A} (a : A) : keeps P (st_ret a).
Proof. intros g r g' H. inversion H; subst. apply HP. Qed.

Lemma keeps_reads {A} (f : ChessVar -> exc A) : keeps P (reads f).
Proof. intros g r g' H. inversion H; subst. apply HP. Qed.

Lemma keeps_bind {A C} (m : ST A) (k : A -> ST C) :
  keeps P m -> (forall a, keeps P (k a)) -> keeps P (st_bind m k).
Proof.
  intros Hm Hk g r g' H. unfold st_bind in H.
  destruct (m g) as [[e|a] g1] eqn:E.
  - inversion H; subst. eapply Hm; eauto.
  - eapply (proj2 HP); [eapply Hm; eauto | eapply Hk; eauto].
Qed.

Lemma keeps_for {A} (l : list A) (body : A -> ST unit) :
  (forall x, keeps P (body x)) -> keeps P (st_for l body).
Proof.
  intros Hb. induction l as [|x l IH]; simpl.
  - apply keeps_ret.
  - apply keeps_bind; auto.
Qed.

End Frame.

Definition same_turn (g g' : ChessVar) : Prop := _current_turn g' = _current_turn g.

(** The game state never goes back to [UNFINISHED]. *)
Definition stays_over (g g' : ChessVar) : Prop :=
  _game_state g' = UNFINISHED -> _game_state g = UNFINISHED.

Ltac keeps_step HP :=
  repeat first
    [ apply (keeps_bind _ HP); [|intro]
    | apply (keeps_ret _ HP)
    | apply (keeps_reads _ HP)
    | apply (keeps_for _ HP); intro
    | match goal with |- keeps _ (if ?c then _ else _) => destruct c end ].

Lemma same_turn_preorder : preorder_on same_turn.
Proof. unfold same_turn. split; congruence. Qed.
Lemma stays_over_preorder : preorder_on stays_over.
Proof. unfold stays_over. split; auto. Qed.

Lemma set_cell_same_turn i j v : keeps same_turn (set_cell i j v).
Proof.
  intros g r g' H. unfold set_cell in H.
  destruct (set2 _ _ _ _); inversion H; subst; reflexivity.
Qed.

Lemma set_cell_stays_over i j v : keeps stays_over (set_cell i j v).
Proof.
  intros g r g' H. unfold set_cell in H.
  destruct (set2 _ _ _ _); inversion H; subst; unfold stays_over; auto.
Qed.

Lemma set_state_same_turn s : keeps same_turn (set_state s).
Proof. intros g r g' H. inversion H; subst. reflexivity. Qed.

Lemma set_state_stays_over s : s <> UNFINISHED -> keeps stays_over (set_state s).
Proof. intros Hs g r g' H. inversion H; subst. unfold stays_over. simpl. congruence. Qed.

Lemma apply_move_same_turn p sr sc nr nc : keeps same_turn (apply_move p sr sc nr nc).
Proof.
  unfold apply_move, _explosion, explode_square, get_cell.
  keeps_step same_turn_preorder;
    apply set_cell_same_turn || apply set_state_same_turn.
Qed.

Lemma apply_move_stays_over p sr sc nr nc : keeps stays_over (apply_move p sr sc nr nc).
Proof.
  unfold apply_move, _explosion, explode_square, get_cell.
  keeps_step stays_over_preorder;
    first [ apply set_cell_stays_over
          | apply set_state_stays_over; destruct (ceq _ _); discriminate ].
Qed.

(* ------------------------------------------------------------------ *)
(** ** Shape of a [make_move] call *)

Definition opposite (t : Turn) : Turn := match t with W => B | B => W end.

(** The object after [update_turn]. *)
Definition turn_updated (g : ChessVar) : ChessVar :=
  if gs_eqb (_game_state g) UNFINISHED then
    {| _board := _board g; _current_turn := opposite (_current_turn g);
       _game_state := _game_state g |}
  else g.

Lemma update_turn_spec g : update_turn g = (inr tt, turn_updated g).
Proof.
  unfold update_turn, turn_updated, st_bind, get_state, get_turn, reads, set_turn.
  destruct g as [b t st]; destruct st, t; reflexivity.
Qed.

Lemma execute_move_split p sr sc nr nc g r g' :
  execute_move p sr sc nr nc g = (r, g') ->
  exists g1,
    (apply_move p sr sc nr nc g = (inr tt, g1) /\ r = inr true /\ g' = turn_updated g1)
    \/ (exists e, apply_move p sr sc nr nc g = (inl e, g1) /\ r = inl e /\ g' = g1).
Proof.
  intros H. unfold execute_move, st_bind at 1 in H.
  destruct (apply_move p sr sc nr nc g) as [[e|[]] g1] eqn:E.
  - inversion H; subst. exists g'. right. eauto.
  - unfold st_bind in H. rewrite update_turn_spec in H. inversion H; subst. eauto.
Qed.

(** The gate of [make_move]: the checks that can reject the move before
    [_is_valid_move] runs, and their outcome when the move goes ahead. *)
Definition passes_gate (g : ChessVar) (start_square next_square : string)
  (piece : ascii) (start_row start_col next_row to_col : Z) : Prop :=
  _game_state g = UNFINISHED /\
  _convert_square_to_indices start_square = inr (start_row, start_col) /\
  _convert_square_to_indices next_square = inr (next_row, to_col) /\
  0 <= next_row < 8 /\ 0 <= to_col < 8 /\
  get2 (_board g) start_row start_col = inr piece /\
  ((islower piece && turn_eqb (_current_turn g) W)
   || (isupper piece && turn_eqb (_current_turn g) B)) = false /\
  _is_valid_move (_board g) (_current_turn g) piece
    start_row start_col next_row to_col = inr true.

Lemma make_move_inv g s1 s2 r g' :
  make_move s1 s2 g = (r, g') ->
  (g' = g /\ r <> inr true)
  \/ exists piece sr sc nr nc,
       passes_gate g s1 s2 piece sr sc nr nc /\
       execute_move piece sr sc nr nc g = (r, g').
Proof.
  unfold make_move, st_bind, get_state, get_turn, get_cell, lift, reads, st_ret.
  intros H.
  destruct (_game_state g) eqn:Est; simpl in H;
    try (inversion H; subst; left; split; [reflexivity|discriminate]).
  destruct (_convert_square_to_indices s1) as [e|[sr sc]] eqn:E1;
    [inversion H; subst; left; split; [reflexivity|discriminate]|].
  destruct (_convert_square_to_indices s2) as [e|[nr nc]] eqn:E2;
    [inversion H; subst; left; split; [reflexivity|discriminate]|].
  destruct ((0 <=? nr) && (nr <? 8) && (0 <=? nc) && (nc <? 8)) eqn:Eb; simpl in H;
    [|inversion H; subst; left; split; [reflexivity|discriminate]].
  destruct (get2 (_board g) sr sc) as [e|piece] eqn:Ep;
    [inversion H; subst; left; split; [reflexivity|discriminate]|].
  destruct ((islower piece && turn_eqb (_current_turn g) W)
            || (isupper piece && turn_eqb (_current_turn g) B)) eqn:Eo;
    [inversion H; subst; left; split; [reflexivity|discriminate]|].
  destruct (_is_valid_move (_board g) (_current_turn g) piece sr sc nr nc)
    as [e|[|]] eqn:Ev;
    try (inversion H; subst; left; split; [reflexivity|discriminate]).
  right. exists piece, sr, sc, nr, nc. split; [|exact H].
  repeat split; auto; rewrite !andb_true_iff, ?Z.leb_le, ?Z.ltb_lt in Eb; lia.
Qed.

(** A caller making the moves [ms] one after another. *)
Fixpoint run_moves (ms : list (string * string)) (g : ChessVar) : ChessVar :=
  match ms with
  | [] => g
  | (a, b) :: ms' => run_moves ms' (snd (make_move a b g))
  end.

(** Once the game is over, a call returns [False] and changes nothing. *)
Lemma make_move_game_over g s1 s2 :
  _game_state g <> UNFINISHED -> make_move s1 s2 g = (inr false, g).
Proof.
  intros Hover. unfold make_move, st_bind, get_state, reads.
  destruct (_game_state g); [contradiction|reflexivity|reflexivity].
Qed.

Lemma run_moves_game_over g ms : _game_state g <> UNFINISHED -> run_moves ms g = g.
Proof.
  intros Hover. induction ms as [|[a b] ms IH]; simpl; [reflexivity|].
  rewrite make_move_game_over by exact Hover. exact IH.
Qed.

(* ------------------------------------------------------------------ *)
(** ** Terminal freeze and turn alternation *)

(** C5: once the game state is not [UNFINISHED], every [make_move] call,
    whatever its arguments, returns [False] and leaves the object (board,
    turn and game state) exactly as it was; hence no sequence of further
    calls changes it, and the game state never returns to [UNFINISHED]. *)
Theorem make_move_frozen (g : ChessVar) (Hover : _game_state g <> UNFINISHED) :
  (forall s1 s2, make_move s1 s2 g = (inr false, g)) /\
  (forall ms, run_moves ms g = g).
Proof.
  split; [intros; apply make_move_game_over; exact Hover|].
  intros ms. apply run_moves_game_over. exact Hover.
Qed.

Lemma make_move_frozen_witness :
  let g := snd (make_move "b1" "d2" new_ChessVar) in
  _game_state g <> UNFINISHED /\
  ((forall s1 s2, make_move s1 s2 g = (inr false, g)) /\
   (forall ms, run_moves ms g = g)).
Proof.
  intro g. assert (H : _game_state g <> UNFINISHED) by (vm_compute; discriminate).
  split; [exact H | apply (make_move_frozen g H)].
Defined.

(** C8: after a call that returns [True], the turn is the opposite of the
    turn before when the game state is still [UNFINISHED], and unchanged
    when the game is over; after any call that does not return [True]
    (it returns [False] or raises) the turn is unchanged. *)
Theorem make_move_turn g s1 s2 r g' (H : make_move s1 s2 g = (r, g')) :
  (r = inr true -> _game_state g' = UNFINISHED ->
   _current_turn g' = opposite (_current_turn g)) /\
  (r = inr true -> _game_state g' <> UNFINISHED -> _current_turn g' = _current_turn g) /\
  (r <> inr true -> _current_turn g' = _current_turn g).
Proof.
  destruct (make_move_inv g s1 s2 r g' H) as [[-> Hr] | (p & sr & sc & nr & nc & _ & Hx)].
  - repeat split; intros; try contradiction; reflexivity.
  - destruct (execute_move_split _ _ _ _ _ _ _ _ Hx) as [g1 [(Ha & -> & ->) | (e & Ha & -> & ->)]].
    + pose proof (apply_move_same_turn p sr sc nr nc g _ _ Ha) as Ht.
      unfold same_turn in Ht. unfold turn_updated.
      destruct (_game_state g1) eqn:Es; simpl; rewrite ?Es;
        repeat split; intros; try congruence.
    + pose proof (apply_move_same_turn p sr sc nr nc g _ _ Ha) as Ht.
      repeat split; intros; try discriminate; exact Ht.
Qed.

Lemma make_move_turn_witness :
  make_move "e2" "e4" new_ChessVar
    = (inr true, snd (make_move "e2" "e4" new_ChessVar)) /\
  let r : exc bool := inr true in let g' := snd (make_move "e2" "e4" new_ChessVar) in
  (r = inr true -> _game_state g' = UNFINISHED ->
   _current_turn g' = opposite (_current_turn new_ChessVar)) /\
  (r = inr true -> _game_state g' <> UNFINISHED ->
   _current_turn g' = _current_turn new_ChessVar) /\
  (r <> inr true -> _current_turn g' = _current_turn new_ChessVar).
Proof.
  assert (H : make_move "e2" "e4" new_ChessVar
              = (inr true, snd (make_move "e2" "e4" new_ChessVar)))
    by (vm_compute; reflexivity).
  split; [exact H | exact (make_move_turn _ _ _ _ _ H)].
Defined.

(* ------------------------------------------------------------------ *)
(** ** Captures of a king, the knight, the pawn direction *)

Definition board_of (rows : list string) : Board := map row_of rows.

(** A game in which Black's knight reaches d4 next to White's king on e2. *)
Definition knight_line : list (string * string) :=
  [("e2", "e4"); ("b8", "c6"); ("e1", "e2"); ("c6", "d4"); ("a2", "a3")]%string.

(** C1 (code): when Black captures White's king, [make_move] sets the game
    state to [WHITE_WON]: line 71 picks ['WHITE_WON'] whenever the captured
    piece is a king, whatever its colour.  Here Black's knight takes the
    king on e2; the blast destroys no king (Black's king stays on e8). *)
Theorem black_captures_white_king :
  let g := run_moves knight_line new_ChessVar in
  _game_state g = UNFINISHED /\ _current_turn g = B /\
  get2 (_board g) 6 4 = inr "K"%char /\ get2 (_board g) 4 3 = inr "n"%char /\
  let '(r, g') := make_move "d4" "e2" g in
  r = inr true /\ _game_state g' = WHITE_WON /\
  get2 (_board g') 0 4 = inr "k"%char.
Proof. vm_compute. repeat split. Qed.

(** C2 (code): [A or B and C] binds as [A or (B and C)], so a knight's
    (1,2)-shaped move is accepted onto a square of its own side: from the
    initial position White's knight b1 may "capture" its own pawn on d2,
    and the blast then removes White's own queen and king.  The
    (2,1)-shaped move onto an own piece is rejected. *)
Theorem knight_captures_own_piece :
  get2 initial_board 6 3 = inr "P"%char /\
  _is_valid_move initial_board W "N" 7 1 6 3 = inr true /\
  _is_valid_move (board_of ["        "; "        "; "        "; "        ";
                             "        "; "P       "; "        "; " N      "]%string)
    W "N" 7 1 5 0 = inr false /\
  let '(r, g') := make_move "b1" "d2" new_ChessVar in
  r = inr true /\ _game_state g' = BLACK_WON.
Proof. vm_compute. repeat split. Qed.

(** The colour of a piece: lower case is black. *)
Definition colour_of (piece : ascii) : Turn := if islower piece then B else W.

(** [_is_valid_move] on its own reads the turn in the pawn branch: the
    same White pawn move e2-e3 gets a different verdict when the turn
    argument is Black.  [make_move] never makes that call (its ownership
    check rejects a white piece on Black's turn first), which is why the
    theorem below is stated for the verdicts [make_move] evaluates. *)
Lemma pawn_verdict_reads_turn :
  _is_valid_move initial_board W "P" 6 4 5 4 = inr true /\
  _is_valid_move initial_board B "P" 6 4 5 4 = inr false.
Proof. vm_compute. split; reflexivity. Qed.

Lemma lower_p_cases (c : ascii) : ceq (lower c) "p" = true -> c = "p"%char \/ c = "P"%char.
Proof.
  destruct c as [[] [] [] [] [] [] [] []]; vm_compute; intros H;
    first [discriminate H | auto].
Qed.

(** [make_move] with a legality verdict that is a function of the piece,
    the origin, the destination and the board only: the turn argument of
    [_is_valid_move] is replaced by the piece's own colour, so that a
    pawn's direction comes from its colour (White towards row 0, Black
    towards row 7).  Everything else is [make_move]'s text. *)
Definition make_move_by_colour (start_square next_square : string) : ST bool :=
  st <- get_state ;;
  if negb (gs_eqb st UNFINISHED) then st_ret false else
  s <- lift (_convert_square_to_indices start_square) ;;
  let (start_row, start_col) := s in
  n <- lift (_convert_square_to_indices next_square) ;;
  let (next_row, to_col) := n in
  if negb ((0 <=? next_row) && (next_row <? 8) && (0 <=? to_col) && (to_col <? 8))
  then st_ret false else
  piece <- get_cell start_row start_col ;;
  t <- get_turn ;;
  if (islower piece && turn_eqb t W) || (isupper piece && turn_eqb t B)
  then st_ret false else
  valid <- reads (fun g => _is_valid_move (_board g) (colour_of piece)
                             piece start_row start_col next_row to_col) ;;
  if valid then execute_move piece start_row start_col next_row to_col
  else st_ret false.

(** Only the pawn branch of [_is_valid_move] reads the turn. *)
Lemma non_pawn_turn_free (b : Board) (t t' : Turn) (piece : ascii) (sr sc nr nc : Z) :
  ceq (lower piece) "p" = false ->
  _is_valid_move b t piece sr sc nr nc = _is_valid_move b t' piece sr sc nr nc.
Proof.
  intros Hp. unfold _is_valid_move. destruct (ceq (lower piece) "k"); [reflexivity|].
  rewrite Hp. reflexivity.
Qed.

(** A piece that passes [make_move]'s ownership check is judged as with
    the turn set to its own colour. *)
Lemma gate_verdict_by_colour (b : Board) (t : Turn) (piece : ascii) (sr sc nr nc : Z) :
  ((islower piece && turn_eqb t W) || (isupper piece && turn_eqb t B)) = false ->
  _is_valid_move b t piece sr sc nr nc = _is_valid_move b (colour_of piece) piece sr sc nr nc.
Proof.
  intros Hg. destruct (ceq (lower piece) "p") eqn:Hp.
  - destruct (lower_p_cases piece Hp) as [-> | ->];
      destruct t; vm_compute in Hg |- *; congruence.
  - apply non_pawn_turn_free. exact Hp.
Qed.

(** C4: the legality verdict is a function of the piece, the origin, the
    destination and the board.  For every piece but a pawn,
    [_is_valid_move] gives the same verdict whatever the turn; and
    [make_move], which evaluates [_is_valid_move] only for a piece that
    passed its ownership check, behaves on every input and every object
    exactly as [make_move_by_colour], which judges every move with the
    piece's own colour in place of the turn (a pawn's direction is then
    determined by its colour). *)
Theorem valid_move_by_colour (b : Board) (t t' : Turn) (piece : ascii)
  (sr sc nr nc : Z) (s1 s2 : string) (g : ChessVar) :
  (ceq (lower piece) "p" = false ->
   _is_valid_move b t piece sr sc nr nc = _is_valid_move b t' piece sr sc nr nc) /\
  make_move s1 s2 g = make_move_by_colour s1 s2 g.
Proof.
  split; [apply non_pawn_turn_free|].
  unfold make_move, make_move_by_colour, st_bind, get_state, get_turn, get_cell,
    lift, reads, st_ret.
  destruct (negb (gs_eqb (_game_state g) UNFINISHED)); [reflexivity|].
  destruct (_convert_square_to_indices s1) as [e|[sr' sc']]; [reflexivity|].
  destruct (_convert_square_to_indices s2) as [e|[nr' nc']]; [reflexivity|].
  destruct (negb ((0 <=? nr') && (nr' <? 8) && (0 <=? nc') && (nc' <? 8))); [reflexivity|].
  destruct (get2 (_board g) sr' sc') as [e|p]; [reflexivity|].
  destruct ((islower p && turn_eqb (_current_turn g) W)
            || (isupper p && turn_eqb (_current_turn g) B)) eqn:Eo; [reflexivity|].
  rewrite (gate_verdict_by_colour _ _ p sr' sc' nr' nc' Eo). reflexivity.
Qed.

(* ------------------------------------------------------------------ *)
(** ** Reading and writing squares of the 8x8 board *)

(** Two Python indices pairs in [-8, 8) that denote the same square. *)
Definition same_sq (i j i' j' : Z) : bool := (i mod 8 =? i' mod 8) && (j mod 8 =? j' mod 8).

Lemma nidx_inj (i i' : Z) : nidx i = nidx i' <-> i mod 8 = i' mod 8.
Proof.
  unfold nidx. pose proof (Z.mod_pos_bound i 8 ltac:(lia)).
  pose proof (Z.mod_pos_bound i' 8 ltac:(lia)). split; intros; lia.
Qed.

Lemma get2_ok (b : Board) (i j : Z) :
  wf_board b -> -8 <= i < 8 -> -8 <= j < 8 -> exists x, get2 b i j = inr x.
Proof. intros Hb Hi Hj. destruct (get2_cell b i j Hb Hi Hj) as [x [_ H]]. eauto. Qed.

Lemma get2_via_cell (b : Board) (i j : Z) (x : ascii) :
  wf_board b -> -8 <= i < 8 -> -8 <= j < 8 ->
  get2 b i j = inr x <-> cell b (nidx i) (nidx j) = Some x.
Proof.
  intros Hb Hi Hj. destruct (get2_cell b i j Hb Hi Hj) as [y [Hc Hg]].
  rewrite Hc, Hg. split; intros H; inversion H; reflexivity.
Qed.

Lemma get2_mod (b : Board) (i j : Z) :
  wf_board b -> -8 <= i < 8 -> -8 <= j < 8 -> get2 b i j = get2 b (i mod 8) (j mod 8).
Proof.
  intros Hb Hi Hj.
  pose proof (Z.mod_pos_bound i 8 ltac:(lia)). pose proof (Z.mod_pos_bound j 8 ltac:(lia)).
  destruct (get2_cell b i j Hb Hi Hj) as [x [Hc Hg]].
  destruct (get2_cell b (i mod 8) (j mod 8) Hb ltac:(lia) ltac:(lia)) as [y [Hc' Hg']].
  rewrite Hg, Hg'. unfold nidx in Hc'. rewrite !Z.mod_mod in Hc' by lia.
  unfold nidx in Hc. congruence.
Qed.

Lemma set2_ok (b : Board) (i j : Z) (v : ascii) :
  wf_board b -> -8 <= i < 8 -> -8 <= j < 8 ->
  exists b', set2 b i j v = inr b' /\ wf_board b' /\
    forall i' j', -8 <= i' < 8 -> -8 <= j' < 8 ->
      get2 b' i' j' = if same_sq i j i' j' then inr v else get2 b i' j'.
Proof.
  intros Hb Hi Hj. destruct (set2_cell b i j v Hb Hi Hj) as (b' & Hs & Hb' & Hc).
  exists b'. split; [exact Hs|]. split; [exact Hb'|].
  intros i' j' Hi' Hj'.
  destruct (get2_cell b' i' j' Hb' Hi' Hj') as [x [Hx Hgx]]. rewrite Hgx.
  rewrite Hc in Hx. unfold same_sq.
  destruct (decide (nidx i' = nidx i /\ nidx j' = nidx j)) as [[E1 E2]|Hne].
  - rewrite nidx_inj in E1, E2. rewrite E1, E2, !Z.eqb_refl. simpl. congruence.
  - destruct ((i mod 8 =? i' mod 8) && (j mod 8 =? j' mod 8)) eqn:E.
    + exfalso. apply Hne. rewrite andb_true_iff, !Z.eqb_eq in E.
      rewrite !nidx_inj. lia.
    + symmetry. apply get2_via_cell; auto.
Qed.

(** Counting the squares of a list that satisfy a test. *)
Fixpoint count_where {A} (p : A -> bool) (l : list A) : nat :=
  match l with
  | [] => 0%nat
  | x :: l' => ((if p x then 1 else 0) + count_where p l')%nat
  end.

Lemma count_where_ext {A} (p p' : A -> bool) (l : list A) :
  (forall q, q ∈ l -> p' q = p q) -> count_where p' l = count_where p l.
Proof.
  induction l as [|x l IH]; simpl; intros H; [reflexivity|].
  rewrite (H x) by ((apply elem_of_cons; left; reflexivity)). rewrite IH; [reflexivity|].
  intros q Hq. apply H. apply elem_of_cons; right; exact Hq.
Qed.

Lemma count_where_one_diff {A} (p p' : A -> bool) (l : list A) (s : A) :
  NoDup l -> s ∈ l -> (forall q, q ∈ l -> q <> s -> p' q = p q) ->
  (count_where p' l + (if p s then 1 else 0)
   = count_where p l + (if p' s then 1 else 0))%nat.
Proof.
  induction l as [|x l IH]; simpl; intros Hnd Hs H.
  - apply not_elem_of_nil in Hs. contradiction.
  - apply NoDup_cons in Hnd as [Hx Hnd].
    apply elem_of_cons in Hs as [Es|Hs]; [subst x|].
    + rewrite (count_where_ext p p' l).
      * destruct (p s), (p' s); lia.
      * intros q Hq. apply H; [apply elem_of_cons; right; exact Hq|].
        intros ->. contradiction.
    + assert (x <> s) by (intros ->; contradiction).
      rewrite (H x) by (auto; (apply elem_of_cons; left; reflexivity)).
      assert (Hq : forall q, q ∈ l -> q <> s -> p' q = p q).
      { intros q Hq Hne. apply H; [|exact Hne]. apply elem_of_cons. right. exact Hq. }
      specialize (IH Hnd Hs Hq). lia.
Qed.

(* ------------------------------------------------------------------ *)
(** ** The explosion, square by square *)

(** The game state after the blast reaches a square holding [x]. *)
Definition blast_state (x : ascii) (st : GameState) : GameState :=
  if ceq (lower x) "p" then st
  else if ceq (lower x) "k" then (if ceq x "K" then BLACK_WON else WHITE_WON)
  else st.

(** A read of a square that yields a piece other than a pawn. *)
Definition non_pawn (r : exc ascii) : bool :=
  match r with inr x => negb (ceq (lower x) "p") | inl _ => false end.

Ltac conj_split := repeat match goal with |- _ /\ _ => split end.

Lemma same_sq_small i j i' j' :
  0 <= i < 8 -> 0 <= j < 8 -> 0 <= i' < 8 -> 0 <= j' < 8 ->
  same_sq i j i' j' = true <-> i = i' /\ j = j'.
Proof.
  intros. unfold same_sq. rewrite andb_true_iff, !Z.eqb_eq.
  rewrite !(Z.mod_small i), !(Z.mod_small j), !(Z.mod_small i'), !(Z.mod_small j') by lia.
  tauto.
Qed.

Lemma same_sq_trans i j i' j' i'' j'' :
  same_sq i j i' j' = true -> same_sq i' j' i'' j'' = same_sq i j i'' j''.
Proof.
  unfold same_sq. rewrite andb_true_iff, !Z.eqb_eq. intros [-> ->]. reflexivity.
Qed.

Lemma explode_square_spec (g : ChessVar) (i j : Z) (x : ascii) :
  wf_board (_board g) -> 0 <= i < 8 -> 0 <= j < 8 -> get2 (_board g) i j = inr x ->
  exists g', explode_square i j g = (inr tt, g') /\ wf_board (_board g') /\
    _current_turn g' = _current_turn g /\
    _game_state g' = blast_state x (_game_state g) /\
    forall i' j', -8 <= i' < 8 -> -8 <= j' < 8 ->
      get2 (_board g') i' j'
      = if same_sq i j i' j' && negb (ceq (lower x) "p") then inr " "%char
        else get2 (_board g) i' j'.
Proof.
  intros Hb Hi Hj Hx.
  unfold explode_square, st_bind, get_cell, reads, blast_state. rewrite Hx.
  destruct (ceq (lower x) "p") eqn:Ep; simpl.
  - exists g. conj_split; auto. intros i' j' _ _. destruct (same_sq i j i' j'); reflexivity.
  - destruct (set2_ok (_board g) i j " " Hb ltac:(lia) ltac:(lia)) as (b' & Hs & Hb' & Hg).
    destruct (ceq (lower x) "k") eqn:Ek; simpl.
    + rewrite Hx. unfold set_state, set_cell. simpl. rewrite Hs.
      eexists; split; [reflexivity|]. simpl. conj_split; auto.
      intros i' j' Hi' Hj'. rewrite andb_true_r. apply Hg; auto.
    + unfold st_ret, set_cell. rewrite Hs.
      eexists; split; [reflexivity|]. simpl. conj_split; auto.
      intros i' j' Hi' Hj'. rewrite andb_true_r. apply Hg; auto.
Qed.

Lemma st_for_app {A} (l l' : list A) (body : A -> ST unit) g :
  st_for (l ++ l') body g = st_bind (st_for l body) (fun _ => st_for l' body) g.
Proof.
  revert g. induction l as [|x l IH]; intros g; simpl.
  - reflexivity.
  - unfold st_bind. destruct (body x g) as [[e|[]] g1]; [reflexivity|].
    rewrite IH. reflexivity.
Qed.

Lemma st_for_nested {A C} (l1 : list A) (l2 : list C) (body : A -> C -> ST unit) g :
  st_for l1 (fun i => st_for l2 (fun j => body i j)) g
  = st_for (list_prod l1 l2) (fun q => body (fst q) (snd q)) g.
Proof.
  revert g. induction l1 as [|x l1 IH]; intros g; simpl; [reflexivity|].
  rewrite st_for_app.
  assert (Hm : forall g0, st_for l2 (fun j => body x j) g0
                         = st_for (map (pair x) l2) (fun q => body (fst q) (snd q)) g0).
  { clear. induction l2 as [|y l2 IH2]; intros g0; simpl; [reflexivity|].
    unfold st_bind. destruct (body x y g0) as [[e|[]] g1]; [reflexivity|]. apply IH2. }
  unfold st_bind. rewrite Hm.
  destruct (st_for (map (pair x) l2) _ g) as [[e|[]] g1]; [reflexivity|].
  apply IH.
Qed.

(** The squares the blast visits, in the order of the two loops. *)
Definition blast_squares (row col : Z) : list (Z * Z) :=
  list_prod (py_range (Z.max 0 (row - 1)) (Z.min 8 (row + 2)) 1)
            (py_range (Z.max 0 (col - 1)) (Z.min 8 (col + 2)) 1).

Lemma explosion_flat row col g :
  _explosion row col g
  = st_for (blast_squares row col) (fun q => explode_square (fst q) (snd q)) g.
Proof. unfold _explosion, blast_squares. apply st_for_nested. Qed.

(** Whether one of the squares [L] is the square [(i, j)]. *)
Definition hits (L : list (Z * Z)) (i j : Z) : bool :=
  existsb (fun q => same_sq (fst q) (snd q) i j) L.

(** The game state after the blast has visited the squares [L] of [b]. *)
Fixpoint blast_fold (b : Board) (L : list (Z * Z)) (st : GameState) : GameState :=
  match L with
  | [] => st
  | q :: L' =>
      blast_fold b L'
        (match get2 b (fst q) (snd q) with inr x => blast_state x st | inl _ => st end)
  end.

Lemma same_sq_sym i j i' j' : same_sq i j i' j' = same_sq i' j' i j.
Proof.
  unfold same_sq. rewrite (Z.eqb_sym (i mod 8)), (Z.eqb_sym (j mod 8)). reflexivity.
Qed.

Lemma same_sq_get2 b i j i' j' :
  wf_board b -> -8 <= i < 8 -> -8 <= j < 8 -> -8 <= i' < 8 -> -8 <= j' < 8 ->
  same_sq i j i' j' = true -> get2 b i j = get2 b i' j'.
Proof.
  intros Hb ? ? ? ? Hs. unfold same_sq in Hs. rewrite andb_true_iff, !Z.eqb_eq in Hs.
  rewrite (get2_mod b i j), (get2_mod b i' j') by auto. destruct Hs as [-> ->]. reflexivity.
Qed.

Lemma blast_fold_ext b1 b2 L st :
  (forall q, q ∈ L -> get2 b1 (fst q) (snd q) = get2 b2 (fst q) (snd q)) ->
  blast_fold b1 L st = blast_fold b2 L st.
Proof.
  revert st. induction L as [|q L IH]; intros st H; simpl; [reflexivity|].
  rewrite (H q) by (apply elem_of_cons; left; reflexivity).
  apply IH. intros q' Hq'. apply H. apply elem_of_cons. right. exact Hq'.
Qed.

Lemma explode_list_spec (L : list (Z * Z)) (g : ChessVar) :
  wf_board (_board g) -> NoDup L ->
  (forall q, q ∈ L -> 0 <= fst q < 8 /\ 0 <= snd q < 8) ->
  exists g', st_for L (fun q => explode_square (fst q) (snd q)) g = (inr tt, g') /\
    wf_board (_board g') /\ _current_turn g' = _current_turn g /\
    _game_state g' = blast_fold (_board g) L (_game_state g) /\
    forall i j, -8 <= i < 8 -> -8 <= j < 8 ->
      get2 (_board g') i j
      = if hits L i j && non_pawn (get2 (_board g) i j) then inr " "%char
        else get2 (_board g) i j.
Proof.
  revert g. induction L as [|[qi qj] L IH]; intros g Hb Hnd Hr.
  - exists g. simpl. conj_split; auto; intros; reflexivity.
  - apply NoDup_cons in Hnd as [Hnq Hnd].
    destruct (Hr (qi, qj)) as [Hqi Hqj]; [apply elem_of_cons; left; reflexivity|].
    simpl in Hqi, Hqj.
    destruct (get2_ok (_board g) qi qj Hb ltac:(lia) ltac:(lia)) as [x Hx].
    destruct (explode_square_spec g qi qj x Hb Hqi Hqj Hx)
      as (g1 & Hsq & Hb1 & Ht1 & Hs1 & Hc1).
    assert (HrL : forall q, q ∈ L -> 0 <= fst q < 8 /\ 0 <= snd q < 8).
    { intros q Hq. apply Hr. apply elem_of_cons. right. exact Hq. }
    destruct (IH g1 Hb1 Hnd HrL) as (g' & Hfor & Hb' & Ht' & Hs' & Hc').
    (* squares of [L] are not [(qi, qj)] *)
    assert (Hdiff : forall q, q ∈ L -> same_sq qi qj (fst q) (snd q) = false).
    { intros [i j] Hq. destruct (HrL _ Hq) as [Hi Hj]. simpl in Hi, Hj |- *.
      destruct (same_sq qi qj i j) eqn:E; [|reflexivity].
      apply same_sq_small in E as [<- <-]; auto. contradiction. }
    exists g'. simpl. unfold st_bind. rewrite Hsq. split; [exact Hfor|].
    conj_split; [exact Hb' | congruence | |].
    + rewrite Hs', Hs1, Hx. apply blast_fold_ext.
      intros q Hq. destruct (HrL q Hq). rewrite Hc1 by lia. rewrite Hdiff by exact Hq.
      reflexivity.
    + intros i j Hi Hj. rewrite Hc', !Hc1 by auto.
      destruct (same_sq qi qj i j) eqn:Eq; simpl.
      * assert (Hh : hits L i j = false).
        { apply not_true_iff_false. unfold hits. rewrite existsb_exists.
          intros [q [Hq Hs]]. apply list_elem_of_In in Hq.
          destruct (HrL q Hq).
          assert (E1 : same_sq i j qi qj = true) by (rewrite same_sq_sym; exact Eq).
          rewrite (same_sq_trans _ _ _ _ qi qj Hs) in E1.
          rewrite same_sq_sym, (Hdiff q Hq) in E1. discriminate. }
        rewrite Hh. rewrite <- (same_sq_get2 (_board g) qi qj i j) by (auto; lia).
        rewrite Hx. simpl. destruct (ceq (lower x) "p"); reflexivity.
      * reflexivity.
Qed.

(* ------------------------------------------------------------------ *)
(** ** The squares of [range] loops *)

Lemma py_range_In_up (a b x : Z) : In x (py_range a b 1) <-> a <= x < b.
Proof.
  unfold py_range. rewrite in_map_iff. split.
  - intros [k [<- Hk]]. apply in_seq in Hk. lia.
  - intros H. exists (Z.to_nat (x - a)). split; [lia|]. apply in_seq. lia.
Qed.

Lemma py_range_In_down (a b x : Z) : In x (py_range a b (-1)) <-> b < x <= a.
Proof.
  unfold py_range. rewrite in_map_iff. split.
  - intros [k [<- Hk]]. apply in_seq in Hk. lia.
  - intros H. exists (Z.to_nat (a - x)). split; [lia|]. apply in_seq. lia.
Qed.

Lemma py_range_sorted (a b : Z) : StronglySorted Z.lt (py_range a b 1).
Proof.
  apply Sorted_StronglySorted; [intros x y z; lia|].
  unfold py_range. generalize (Z.to_nat ((b - a) * 1)) as n. intros n.
  generalize 0%nat as s. induction n as [|n IH]; intros s; simpl; [constructor|].
  constructor; [apply IH|]. destruct n; simpl; constructor. lia.
Qed.

(** Row-major order: the order in which the two nested loops visit squares. *)
Definition before (q q' : Z * Z) : Prop :=
  fst q < fst q' \/ (fst q = fst q' /\ snd q < snd q').

Lemma sorted_app {A} (R : A -> A -> Prop) (l1 l2 : list A) :
  StronglySorted R l1 -> StronglySorted R l2 ->
  (forall a b, In a l1 -> In b l2 -> R a b) -> StronglySorted R (l1 ++ l2).
Proof.
  intros H1 H2 H. induction H1 as [|a l1 H1 IH Ha]; simpl; [exact H2|].
  constructor.
  - apply IH. intros a' b Ha' Hb. apply H; simpl; auto.
  - apply Forall_app. split; [exact Ha|].
    apply Forall_forall. intros b Hb. apply list_elem_of_In in Hb.
    apply H; simpl; auto.
Qed.

Lemma list_prod_sorted (R C : list Z) :
  StronglySorted Z.lt R -> StronglySorted Z.lt C -> StronglySorted before (list_prod R C).
Proof.
  intros HR HC. induction HR as [|x R HR IH Hx]; simpl; [constructor|].
  assert (Hmap : StronglySorted before (map (pair x) C)).
  { clear -HC. induction HC as [|y C HC IH Hy]; simpl; constructor; [exact IH|].
    apply Forall_map. eapply Forall_impl; [exact Hy|]. intros z Hz. right. simpl. lia. }
  assert (Hcross : forall q q', In q (map (pair x) C) -> In q' (list_prod R C) -> before q q').
  { intros q q' Hq Hq'. apply in_map_iff in Hq as [y [<- _]].
    destruct q' as [x' y']. apply in_prod_iff in Hq' as [Hx' _].
    rewrite Forall_forall in Hx. left. simpl. apply Hx. apply list_elem_of_In. exact Hx'. }
  apply sorted_app; assumption.
Qed.

Lemma sorted_NoDup (L : list (Z * Z)) : StronglySorted before L -> NoDup L.
Proof.
  induction 1 as [|q L HL IH Hq]; constructor; [|exact IH].
  intros Hin. rewrite Forall_forall in Hq.
  specialize (Hq q Hin). unfold before in Hq. lia.
Qed.

(** The blast around [(r, c)], as the claim words it. *)
Definition in_blast (r c i j : Z) : Prop :=
  Z.max 0 (r - 1) <= i <= Z.min 7 (r + 1) /\ Z.max 0 (c - 1) <= j <= Z.min 7 (c + 1).

Lemma blast_squares_In r c q : q ∈ blast_squares r c <-> in_blast r c (fst q) (snd q).
Proof.
  destruct q as [i j]. rewrite list_elem_of_In. unfold blast_squares, in_blast.
  rewrite in_prod_iff, !py_range_In_up. simpl. lia.
Qed.

Lemma blast_squares_sorted r c : StronglySorted before (blast_squares r c).
Proof. apply list_prod_sorted; apply py_range_sorted. Qed.

(** Pawns and kings, as the board writes them. *)
Definition is_pawn (x : ascii) : bool := ceq x "p" || ceq x "P".
Definition is_king (x : ascii) : bool := ceq x "k" || ceq x "K".

Lemma lower_p_iff (x : ascii) : ceq (lower x) "p" = is_pawn x.
Proof. destruct x as [[] [] [] [] [] [] [] []]; reflexivity. Qed.

Lemma lower_k_iff (x : ascii) : ceq (lower x) "k" = is_king x.
Proof. destruct x as [[] [] [] [] [] [] [] []]; reflexivity. Qed.

Lemma blast_fold_no_king b L st :
  (forall q x, q ∈ L -> get2 b (fst q) (snd q) = inr x -> is_king x = false) ->
  blast_fold b L st = st.
Proof.
  revert st. induction L as [|q L IH]; intros st H; simpl; [reflexivity|].
  rewrite IH.
  - destruct (get2 b (fst q) (snd q)) as [e|x] eqn:E; [reflexivity|].
    unfold blast_state. rewrite lower_k_iff, (H q x); [|apply elem_of_cons; left|]; auto.
    destruct (ceq (lower x) "p"); reflexivity.
  - intros q' x Hq' Hx. apply (H q' x); [apply elem_of_cons; right|]; auto.
Qed.

Lemma blast_fold_last_king b L st q x :
  StronglySorted before L -> q ∈ L -> get2 b (fst q) (snd q) = inr x -> is_king x = true ->
  (forall q' x', q' ∈ L -> before q q' -> get2 b (fst q') (snd q') = inr x' ->
     is_king x' = false) ->
  blast_fold b L st = if ceq x "K" then BLACK_WON else WHITE_WON.
Proof.
  intros HL. revert st. induction HL as [|q0 L HL IH Hq0]; intros st Hq Hx Hk Hlast.
  - apply not_elem_of_nil in Hq. contradiction.
  - apply elem_of_cons in Hq as [->|Hq]; simpl.
    + rewrite blast_fold_no_king.
      * rewrite Hx. unfold blast_state. rewrite lower_p_iff, lower_k_iff, Hk.
        destruct x as [[] [] [] [] [] [] [] []]; try discriminate Hk; reflexivity.
      * intros q' x' Hq' Hx'. apply (Hlast q' x'); auto.
        -- apply elem_of_cons. right. exact Hq'.
        -- rewrite Forall_forall in Hq0. apply Hq0. exact Hq'.
    + apply IH; auto. intros q' x' Hq' Hb Hx'. apply (Hlast q' x'); auto.
      apply elem_of_cons. right. exact Hq'.
Qed.

Lemma blast_fold_unfinished b L st :
  blast_fold b L st = UNFINISHED ->
  st = UNFINISHED /\
  forall q x, q ∈ L -> get2 b (fst q) (snd q) = inr x -> is_king x = false.
Proof.
  revert st. induction L as [|q L IH]; intros st H; simpl in H.
  - split; [exact H|]. intros q x Hq. apply not_elem_of_nil in Hq. contradiction.
  - destruct (IH _ H) as [Hs HL].
    destruct (get2 b (fst q) (snd q)) as [e|x] eqn:E.
    + split; [exact Hs|]. intros q' x' Hq' Hx'. apply elem_of_cons in Hq' as [->|Hq'].
      * congruence.
      * eapply HL; eauto.
    + unfold blast_state in Hs. rewrite lower_p_iff, lower_k_iff in Hs.
      assert (Hk : is_king x = false).
      { destruct (is_pawn x) eqn:Ep.
        - destruct x as [[] [] [] [] [] [] [] []]; try discriminate Ep; reflexivity.
        - destruct (is_king x); [destruct (ceq x "K"); discriminate|reflexivity]. }
      rewrite Hk in Hs. destruct (is_pawn x); split; auto;
        intros q' x' Hq' Hx'; apply elem_of_cons in Hq' as [->|Hq']; eauto; congruence.
Qed.

Lemma king_cases (x : ascii) : is_king x = true -> x = "k"%char \/ x = "K"%char.
Proof.
  unfold is_king, ceq. destruct (Ascii.eqb_spec x "k"), (Ascii.eqb_spec x "K"); auto.
  discriminate.
Qed.

Lemma hits_blast r c i j :
  0 <= i < 8 -> 0 <= j < 8 -> hits (blast_squares r c) i j = true <-> in_blast r c i j.
Proof.
  intros Hi Hj. unfold hits. rewrite existsb_exists. split.
  - intros [[i' j'] [Hq Hs]]. apply list_elem_of_In, blast_squares_In in Hq as Hb.
    simpl in Hs, Hb. unfold in_blast in Hb.
    apply same_sq_small in Hs as [-> ->]; auto; lia.
  - intros Hb. exists (i, j). split.
    + apply list_elem_of_In, blast_squares_In. exact Hb.
    + simpl. apply same_sq_small; auto.
Qed.

(* ------------------------------------------------------------------ *)
(** ** C6: the explosion resolver *)

(** C6: around a centre [(r, c)] on the board, [_explosion] empties every
    square of rows [max(0,r-1)..min(7,r+1)] and columns
    [max(0,c-1)..min(7,c+1)] (centre included) that does not hold a pawn,
    keeps the pawns of that area, leaves every other square and the turn
    as they were, and never raises.  A removed king sets the game state to
    a win for the other colour: with no king in the area the game state is
    unchanged, and otherwise it is the win against the colour of the last
    king the loops reach (rows top to bottom, each row left to right), i.e.
    of the only king when there is one. *)
Theorem explosion_spec (g : ChessVar) (r c : Z) :
  wf_board (_board g) -> 0 <= r < 8 -> 0 <= c < 8 ->
  exists g', _explosion r c g = (inr tt, g') /\ _current_turn g' = _current_turn g /\
    (forall i j x, 0 <= i < 8 -> 0 <= j < 8 -> ~ in_blast r c i j ->
       get2 (_board g) i j = inr x -> get2 (_board g') i j = inr x) /\
    (forall i j x, in_blast r c i j -> get2 (_board g) i j = inr x -> is_pawn x = true ->
       get2 (_board g') i j = inr x) /\
    (forall i j x, in_blast r c i j -> get2 (_board g) i j = inr x -> is_pawn x = false ->
       get2 (_board g') i j = inr " "%char) /\
    ((forall i j x, in_blast r c i j -> get2 (_board g) i j = inr x -> is_king x = false) ->
     _game_state g' = _game_state g) /\
    (forall i j x, in_blast r c i j -> get2 (_board g) i j = inr x -> is_king x = true ->
     (forall i' j' x', in_blast r c i' j' -> before (i, j) (i', j') ->
        get2 (_board g) i' j' = inr x' -> is_king x' = false) ->
     (x = "K"%char /\ _game_state g' = BLACK_WON) \/
     (x = "k"%char /\ _game_state g' = WHITE_WON)).
Proof.
  intros Hb Hr Hc.
  assert (Hrange : forall q, q ∈ blast_squares r c -> 0 <= fst q < 8 /\ 0 <= snd q < 8).
  { intros q Hq. apply blast_squares_In in Hq. unfold in_blast in Hq. lia. }
  destruct (explode_list_spec (blast_squares r c) g Hb
              (sorted_NoDup _ (blast_squares_sorted r c)) Hrange)
    as (g' & Hrun & _ & Ht & Hs & Hcell).
  exists g'. rewrite explosion_flat. split; [exact Hrun|]. split; [exact Ht|].
  assert (Hin : forall i j, in_blast r c i j -> 0 <= i < 8 /\ 0 <= j < 8).
  { unfold in_blast. lia. }
  conj_split.
  - intros i j x Hi Hj Hn Hx. rewrite Hcell by lia.
    destruct (hits (blast_squares r c) i j) eqn:E.
    + apply hits_blast in E; auto. contradiction.
    + exact Hx.
  - intros i j x Hbl Hx Hp. destruct (Hin i j Hbl).
    rewrite Hcell by lia. rewrite Hx. simpl. rewrite lower_p_iff, Hp, andb_false_r.
    reflexivity.
  - intros i j x Hbl Hx Hp. destruct (Hin i j Hbl).
    rewrite Hcell by lia. rewrite Hx. simpl. rewrite lower_p_iff, Hp.
    rewrite (proj2 (hits_blast r c i j ltac:(lia) ltac:(lia)) Hbl). reflexivity.
  - intros Hnk. rewrite Hs. apply blast_fold_no_king.
    intros [i j] x Hq Hx. apply blast_squares_In in Hq. eapply Hnk; eauto.
  - intros i j x Hbl Hx Hk Hlast. rewrite Hs.
    rewrite (blast_fold_last_king _ _ _ (i, j) x (blast_squares_sorted r c)); auto.
    + destruct (king_cases x Hk) as [-> | ->]; [right|left]; auto.
    + apply blast_squares_In. exact Hbl.
    + intros [i' j'] x' Hq' Hbf Hx'. apply blast_squares_In in Hq'.
      eapply Hlast; eauto.
Qed.

Lemma explosion_spec_witness :
  (wf_board initial_board /\ 0 <= 1 < 8 /\ 0 <= 4 < 8) /\
  exists g', _explosion 1 4 new_ChessVar = (inr tt, g') /\
    _current_turn g' = _current_turn new_ChessVar /\
    get2 (_board g') 0 4 = inr " "%char /\ _game_state g' = WHITE_WON.
Proof.
  assert (Hb : wf_board initial_board).
  { split; [reflexivity|]. repeat constructor. }
  split; [split; [exact Hb | lia]|].
  destruct (explosion_spec new_ChessVar 1 4 Hb ltac:(lia) ltac:(lia))
    as (g' & Hrun & Ht & _ & _ & Hnp & _ & Hlast).
  exists g'. split; [exact Hrun|]. split; [exact Ht|]. split.
  - apply (Hnp 0 4 "k"%char); [unfold in_blast; simpl; lia | reflexivity | reflexivity].
  - destruct (Hlast 0 4 "k"%char) as [[Hx _] | [_ Hs]];
      [unfold in_blast; simpl; lia | reflexivity | reflexivity | | discriminate | exact Hs].
    intros i' j' x' Hbl Hbef Hx'. unfold in_blast in Hbl. simpl in Hbl.
    unfold before in Hbef. simpl in Hbef.
    assert (Hcase : (i' = 0 /\ j' = 5) \/ i' = 1 \/ i' = 2) by lia.
    assert (Hj : j' = 3 \/ j' = 4 \/ j' = 5) by lia.
    destruct Hcase as [[-> ->] | [-> | ->]];
      [| destruct Hj as [-> | [-> | ->]] ..];
      vm_compute in Hx'; inversion Hx'; reflexivity.
Defined.

(* ------------------------------------------------------------------ *)
(** ** What a move does to the board *)

Lemma py_get_range {A} (l : list A) (i : Z) (x : A) :
  py_get l i = inr x -> - Z.of_nat (length l) <= i < Z.of_nat (length l).
Proof.
  unfold py_get, py_index.
  destruct ((0 <=? i) && (i <? Z.of_nat (length l))) eqn:E1.
  - rewrite andb_true_iff, Z.leb_le, Z.ltb_lt in E1. lia.
  - destruct ((- Z.of_nat (length l) <=? i) && (i <? 0)) eqn:E2; [|discriminate].
    rewrite andb_true_iff, Z.leb_le, Z.ltb_lt in E2. lia.
Qed.

Lemma py_get_elem {A} (l : list A) (i : Z) (x : A) : py_get l i = inr x -> x ∈ l.
Proof.
  unfold py_get. destruct (py_index l i) as [k|]; [|discriminate].
  destruct (l !! k) eqn:E; [|discriminate]. intros H. inversion H; subst.
  eapply list_elem_of_lookup_2. exact E.
Qed.

Lemma get2_range (b : Board) (i j : Z) (x : ascii) :
  wf_board b -> get2 b i j = inr x -> -8 <= i < 8 /\ -8 <= j < 8.
Proof.
  intros [Hb Hr] H. unfold get2 in H. destruct (py_get b i) as [e|row] eqn:E; [discriminate|].
  simpl in H. apply py_get_range in E as Ei. apply py_get_elem in E.
  apply py_get_range in H. rewrite Forall_forall in Hr. rewrite (Hr row E) in H.
  rewrite Hb in Ei. simpl in Ei, H. lia.
Qed.

(** The object [apply_move] hands to the blast (or returns, on a quiet
    move): the piece moved, the game state set for a captured or capturing
    king. *)
Definition moved (g : ChessVar) (b2 : Board) (piece captured : ascii) : ChessVar :=
  {| _board := b2; _current_turn := _current_turn g;
     _game_state :=
       if negb (ceq captured " ") && (ceq (lower captured) "k" || ceq (lower piece) "k")
       then (if ceq (lower captured) "k" then WHITE_WON else BLACK_WON)
       else _game_state g |}.

Lemma apply_move_spec (g : ChessVar) (p : ascii) (sr sc nr nc : Z) (y : ascii) :
  wf_board (_board g) -> -8 <= sr < 8 -> -8 <= sc < 8 -> 0 <= nr < 8 -> 0 <= nc < 8 ->
  get2 (_board g) nr nc = inr y ->
  exists b1 b2, set2 (_board g) nr nc p = inr b1 /\ set2 b1 sr sc " " = inr b2 /\
    wf_board b1 /\ wf_board b2 /\
    apply_move p sr sc nr nc g
    = if ceq y " " then (inr tt, moved g b2 p y) else _explosion nr nc (moved g b2 p y).
Proof.
  intros Hb Hsr Hsc Hnr Hnc Hy.
  destruct (set2_ok (_board g) nr nc p Hb ltac:(lia) ltac:(lia)) as (b1 & Hs1 & Hb1 & _).
  destruct (set2_ok b1 sr sc " " Hb1 Hsr Hsc) as (b2 & Hs2 & Hb2 & _).
  exists b1, b2. conj_split; auto.
  unfold apply_move, st_bind, get_cell, reads, set_cell. rewrite Hy. simpl.
  rewrite Hs1. simpl. rewrite Hs2. unfold moved. simpl.
  destruct (ceq y " "); simpl; [reflexivity|].
  destruct (ceq (lower y) "k" || ceq (lower p) "k"); reflexivity.
Qed.

(* ------------------------------------------------------------------ *)
(** ** Counting pieces *)

(** The 64 squares, row by row. *)
Definition squares : list (Z * Z) := list_prod (py_range 0 8 1) (py_range 0 8 1).

(** The number of squares of [b] holding [x]. *)
Definition count_piece (x : ascii) (b : Board) : nat :=
  count_where (fun q => match get2 b (fst q) (snd q) with
                        | inr y => ceq y x | inl _ => false end) squares.

Lemma squares_In q : q ∈ squares <-> 0 <= fst q < 8 /\ 0 <= snd q < 8.
Proof.
  destruct q as [i j]. rewrite list_elem_of_In. unfold squares.
  rewrite in_prod_iff, !py_range_In_up. reflexivity.
Qed.

Lemma squares_NoDup : NoDup squares.
Proof. apply sorted_NoDup, list_prod_sorted; apply py_range_sorted. Qed.

Lemma count_set2 (b b' : Board) (i j : Z) (v old x : ascii) :
  wf_board b -> set2 b i j v = inr b' -> get2 b i j = inr old ->
  (count_piece x b' + (if ceq old x then 1 else 0)
   = count_piece x b + (if ceq v x then 1 else 0))%nat.
Proof.
  intros Hb Hs Hold. destruct (get2_range b i j old Hb Hold) as [Hi Hj].
  destruct (set2_ok b i j v Hb Hi Hj) as (b'' & Hs' & Hb' & Hc).
  rewrite Hs in Hs'. inversion Hs'; subst b''.
  pose proof (Z.mod_pos_bound i 8 ltac:(lia)). pose proof (Z.mod_pos_bound j 8 ltac:(lia)).
  unfold count_piece.
  pose proof (count_where_one_diff
    (fun q => match get2 b (fst q) (snd q) with inr y => ceq y x | inl _ => false end)
    (fun q => match get2 b' (fst q) (snd q) with inr y => ceq y x | inl _ => false end)
    squares (i mod 8, j mod 8) squares_NoDup) as Hd.
  simpl in Hd.
  assert (Hss : same_sq i j (i mod 8) (j mod 8) = true).
  { unfold same_sq. rewrite !Z.mod_mod by lia. rewrite !Z.eqb_refl. reflexivity. }
  assert (E1 : get2 b (i mod 8) (j mod 8) = inr old) by (rewrite <- get2_mod; auto).
  assert (E2 : get2 b' (i mod 8) (j mod 8) = inr v) by (rewrite Hc, Hss by lia; reflexivity).
  rewrite E1, E2 in Hd. apply Hd.
  - apply squares_In. simpl. lia.
  - intros [qi qj] Hq Hne. apply squares_In in Hq. simpl in Hq |- *.
    rewrite Hc by lia.
    destruct (same_sq i j qi qj) eqn:E; [|reflexivity].
    exfalso. apply Hne. unfold same_sq in E. rewrite andb_true_iff, !Z.eqb_eq in E.
    rewrite !(Z.mod_small qi), !(Z.mod_small qj) in E by lia. destruct E as [-> ->].
    reflexivity.
Qed.

Lemma ceq_king_other (x X : ascii) : is_king X = true -> is_king x = false -> ceq x X = false.
Proof.
  intros HX Hx. destruct (king_cases X HX) as [-> | ->];
    unfold is_king in Hx; apply orb_false_iff in Hx as [H1 H2]; assumption.
Qed.

(** A blast that leaves the game unfinished keeps the number of kings. *)
Lemma explosion_keeps_kings (g : ChessVar) (r c : Z) (g' : ChessVar) (X : ascii) :
  wf_board (_board g) -> 0 <= r < 8 -> 0 <= c < 8 -> is_king X = true ->
  _explosion r c g = (inr tt, g') -> _game_state g' = UNFINISHED ->
  wf_board (_board g') /\ _game_state g = UNFINISHED /\
  count_piece X (_board g') = count_piece X (_board g).
Proof.
  intros Hb Hr Hc HX Hrun Hu. rewrite explosion_flat in Hrun.
  assert (Hrange : forall q, q ∈ blast_squares r c -> 0 <= fst q < 8 /\ 0 <= snd q < 8).
  { intros q Hq. apply blast_squares_In in Hq. unfold in_blast in Hq. lia. }
  destruct (explode_list_spec (blast_squares r c) g Hb
              (sorted_NoDup _ (blast_squares_sorted r c)) Hrange)
    as (g1 & Hrun1 & Hb1 & _ & Hs & Hcell).
  rewrite Hrun in Hrun1. inversion Hrun1; subst g1.
  rewrite Hu in Hs. symmetry in Hs. apply blast_fold_unfinished in Hs as [Hs Hnk].
  conj_split; auto.
  unfold count_piece. apply count_where_ext. intros [i j] Hq.
  apply squares_In in Hq. simpl in Hq |- *. rewrite Hcell by lia.
  destruct (hits (blast_squares r c) i j) eqn:Eh; simpl; [|reflexivity].
  apply hits_blast in Eh; [|lia|lia].
  destruct (get2_ok (_board g) i j Hb ltac:(lia) ltac:(lia)) as [x Hx]. rewrite Hx.
  cbn [non_pawn andb].
  assert (Hk : is_king x = false).
  { apply (Hnk (i, j)); [apply blast_squares_In; exact Eh | exact Hx]. }
  assert (Hsp : ceq " " X = false) by (apply ceq_king_other; [exact HX | reflexivity]).
  destruct (negb (ceq (lower x) "p")); [|reflexivity].
  rewrite Hsp, (ceq_king_other x X HX Hk). reflexivity.
Qed.

Lemma count_where_le {A} (p p' : A -> bool) (l : list A) :
  (forall q, q ∈ l -> p' q = true -> p q = true) -> (count_where p' l <= count_where p l)%nat.
Proof.
  induction l as [|x l IH]; simpl; intros H; [lia|].
  assert (IH' : (count_where p' l <= count_where p l)%nat).
  { apply IH. intros q Hq. apply H. apply elem_of_cons. right. exact Hq. }
  destruct (p' x) eqn:E1; [|destruct (p x); lia].
  assert (Hx : p x = true).
  { apply H; [apply elem_of_cons; left; reflexivity | exact E1]. }
  rewrite Hx. lia.
Qed.

Lemma space_not_king (X : ascii) : is_king X = true -> ceq " " X = false.
Proof. intros HX. apply ceq_king_other; [exact HX | reflexivity]. Qed.

Lemma explosion_ok (g : ChessVar) (r c : Z) :
  wf_board (_board g) -> 0 <= r < 8 -> 0 <= c < 8 ->
  exists g', _explosion r c g = (inr tt, g') /\ wf_board (_board g') /\
    forall X, is_king X = true -> (count_piece X (_board g') <= count_piece X (_board g))%nat.
Proof.
  intros Hb Hr Hc. rewrite explosion_flat.
  assert (Hrange : forall q, q ∈ blast_squares r c -> 0 <= fst q < 8 /\ 0 <= snd q < 8).
  { intros q Hq. apply blast_squares_In in Hq. unfold in_blast in Hq. lia. }
  destruct (explode_list_spec (blast_squares r c) g Hb
              (sorted_NoDup _ (blast_squares_sorted r c)) Hrange)
    as (g1 & Hrun & Hb1 & _ & _ & Hcell).
  exists g1. split; [exact Hrun|]. split; [exact Hb1|].
  intros X HX. unfold count_piece. apply count_where_le.
  intros [i j] Hq Ht. apply squares_In in Hq. cbn [fst snd] in Hq, Ht |- *.
  rewrite Hcell in Ht by lia.
  destruct (hits (blast_squares r c) i j && non_pawn (get2 (_board g) i j)); [|exact Ht].
  rewrite space_not_king in Ht by exact HX. discriminate.
Qed.

Lemma turn_updated_board g :
  _board (turn_updated g) = _board g /\ _game_state (turn_updated g) = _game_state g.
Proof. unfold turn_updated. destruct (gs_eqb (_game_state g) UNFINISHED); auto. Qed.

(** Moving [p] from the origin to the destination holding [y] removes one
    [X] exactly when [y] is [X]. *)
Lemma moved_count (b b1 b2 : Board) (p y X : ascii) (sr sc nr nc : Z) :
  wf_board b -> get2 b sr sc = inr p -> get2 b nr nc = inr y ->
  set2 b nr nc p = inr b1 -> set2 b1 sr sc " " = inr b2 -> is_king X = true ->
  (count_piece X b2 + (if ceq y X then 1 else 0) = count_piece X b)%nat.
Proof.
  intros Hb Hp Hy Hs1 Hs2 HX.
  destruct (get2_range b sr sc p Hb Hp) as [Hsr Hsc].
  destruct (get2_range b nr nc y Hb Hy) as [Hnr Hnc].
  destruct (set2_ok b nr nc p Hb Hnr Hnc) as (b1' & Hs1' & Hb1 & Hc1).
  rewrite Hs1 in Hs1'. inversion Hs1'; subst b1'.
  assert (Hp1 : get2 b1 sr sc = inr p).
  { rewrite Hc1 by assumption. destruct (same_sq nr nc sr sc); [reflexivity | exact Hp]. }
  pose proof (count_set2 b b1 nr nc p y X Hb Hs1 Hy) as H1.
  pose proof (count_set2 b1 b2 sr sc " " p X Hb1 Hs2 Hp1) as H2.
  rewrite space_not_king in H2 by exact HX.
  destruct (ceq p X), (ceq y X); lia.
Qed.

(** One call of [make_move] on a well-formed board: the board stays
    well-formed, no king is ever added, and a call that leaves the game
    unfinished started from an unfinished game and removed no king. *)
Lemma make_move_step g s1 s2 r g' :
  wf_board (_board g) -> make_move s1 s2 g = (r, g') ->
  wf_board (_board g') /\
  (forall X, is_king X = true -> (count_piece X (_board g') <= count_piece X (_board g))%nat) /\
  (_game_state g' = UNFINISHED -> _game_state g = UNFINISHED /\
     forall X, is_king X = true -> count_piece X (_board g') = count_piece X (_board g)).
Proof.
  intros Hb H.
  destruct (make_move_inv g s1 s2 r g' H) as [[-> _] | (p & sr & sc & nr & nc & Hg & Hx)].
  { split; [exact Hb|]. split; [lia|]. auto. }
  destruct Hg as (Hu & _ & _ & Hnr & Hnc & Hp & _ & _).
  destruct (get2_range _ _ _ _ Hb Hp) as [Hsr Hsc].
  destruct (get2_ok (_board g) nr nc Hb ltac:(lia) ltac:(lia)) as [y Hy].
  destruct (apply_move_spec g p sr sc nr nc y Hb Hsr Hsc Hnr Hnc Hy)
    as (b1 & b2 & Hs1 & Hs2 & Hb1 & Hb2 & Ha).
  assert (Hcnt : forall X, is_king X = true ->
            (count_piece X b2 + (if ceq y X then 1 else 0) = count_piece X (_board g))%nat)
    by (intros X HX; exact (moved_count _ b1 b2 p y X sr sc nr nc Hb Hp Hy Hs1 Hs2 HX)).
  destruct (execute_move_split _ _ _ _ _ _ _ _ Hx)
    as [g1 [(Ha' & _ & ->) | (e & Ha' & _ & ->)]].
  - rewrite Ha in Ha'. destruct (turn_updated_board g1) as [-> ->].
    destruct (ceq y " ") eqn:Ey.
    + inversion Ha'; subst g1. cbn [_board _game_state moved].
      assert (Hy0 : forall X, is_king X = true -> ceq y X = false).
      { intros X HX. apply Ascii.eqb_eq in Ey. subst y. apply space_not_king. exact HX. }
      split; [exact Hb2|]. split.
      * intros X HX. specialize (Hcnt X HX). lia.
      * intros _. split; [exact Hu|].
        intros X HX. specialize (Hcnt X HX). rewrite Hy0 in Hcnt by exact HX. lia.
    + destruct (explosion_ok (moved g b2 p y) nr nc Hb2 Hnr Hnc) as (g3 & He & Hb3 & Hle).
      rewrite He in Ha'. inversion Ha'; subst g3.
      split; [exact Hb3|]. split.
      * intros X HX. specialize (Hle X HX). specialize (Hcnt X HX). simpl in Hle. lia.
      * intros Hu'.
        destruct (explosion_keeps_kings (moved g b2 p y) nr nc g1 "K" Hb2 Hnr Hnc
                    eq_refl He Hu') as (_ & Hmu & _).
        unfold moved in Hmu. cbn [_game_state] in Hmu. rewrite Ey in Hmu.
        destruct (ceq (lower y) "k") eqn:Eyk; [discriminate|].
        destruct (ceq (lower p) "k"); cbn in Hmu; [discriminate|].
        split; [exact Hmu|]. intros X HX.
        destruct (explosion_keeps_kings (moved g b2 p y) nr nc g1 X Hb2 Hnr Hnc HX He Hu')
          as (_ & _ & ->).
        rewrite lower_k_iff in Eyk. specialize (Hcnt X HX).
        rewrite (ceq_king_other y X HX Eyk) in Hcnt. simpl. lia.
  - exfalso. rewrite Ha in Ha'. destruct (ceq y " "); [discriminate|].
    destruct (explosion_ok (moved g b2 p y) nr nc Hb2 Hnr Hnc) as (g3 & He & _).
    rewrite He in Ha'. discriminate.
Qed.

(** The objects a caller can reach: a new game, then any calls of
    [make_move] (returning or raising). *)
Inductive reachable : ChessVar -> Prop :=
| reach_new : reachable new_ChessVar
| reach_move g s1 s2 : reachable g -> reachable (snd (make_move s1 s2 g)).

Lemma reachable_inv g :
  reachable g ->
  wf_board (_board g) /\
  (count_piece "K" (_board g) <= 1 /\ count_piece "k" (_board g) <= 1)%nat /\
  (_game_state g = UNFINISHED ->
   count_piece "K" (_board g) = 1%nat /\ count_piece "k" (_board g) = 1%nat).
Proof.
  induction 1 as [|g s1 s2 _ (Hb & [HK Hk] & IH)].
  - split; [vm_compute; repeat constructor|]. split; [vm_compute; lia|].
    intros _. vm_compute. split; reflexivity.
  - destruct (make_move s1 s2 g) as [r g'] eqn:E. cbn [snd].
    destruct (make_move_step g s1 s2 r g' Hb E) as (Hb' & Hle & Hs).
    split; [exact Hb'|]. split.
    + pose proof (Hle "K"%char eq_refl). pose proof (Hle "k"%char eq_refl). lia.
    + intros Hu. destruct (Hs Hu) as [Hu0 Hc].
      rewrite (Hc "K"%char eq_refl), (Hc "k"%char eq_refl). apply IH. exact Hu0.
Qed.

(** C9: in every object reachable from a new game by calls of [make_move],
    each colour has at most one king on the board, and exactly one while
    the game state is [UNFINISHED]; a call that removes a king (by capture
    or by a blast) ends with a game state other than [UNFINISHED], after
    which no sequence of calls changes the object. *)
Theorem king_invariant (g : ChessVar) (Hr : reachable g) :
  (count_piece "K" (_board g) <= 1 /\ count_piece "k" (_board g) <= 1)%nat /\
  (_game_state g = UNFINISHED ->
   count_piece "K" (_board g) = 1%nat /\ count_piece "k" (_board g) = 1%nat) /\
  (forall s1 s2 r g', make_move s1 s2 g = (r, g') ->
     (count_piece "K" (_board g') < count_piece "K" (_board g) \/
      count_piece "k" (_board g') < count_piece "k" (_board g))%nat ->
     _game_state g' <> UNFINISHED /\ forall ms, run_moves ms g' = g').
Proof.
  destruct (reachable_inv g Hr) as (Hb & Hle & Hu).
  split; [exact Hle|]. split; [exact Hu|].
  intros s1 s2 r g' H Hdec.
  destruct (make_move_step g s1 s2 r g' Hb H) as (_ & _ & Hs).
  assert (Hover : _game_state g' <> UNFINISHED).
  { intros Hu'. destruct (Hs Hu') as [_ Hc].
    rewrite (Hc "K"%char eq_refl), (Hc "k"%char eq_refl) in Hdec. lia. }
  split; [exact Hover|]. intros ms. apply run_moves_game_over. exact Hover.
Qed.

Lemma king_invariant_witness :
  let g := run_moves knight_line new_ChessVar in
  reachable g /\
  ((count_piece "K" (_board g) <= 1 /\ count_piece "k" (_board g) <= 1)%nat /\
   (_game_state g = UNFINISHED ->
    count_piece "K" (_board g) = 1%nat /\ count_piece "k" (_board g) = 1%nat) /\
   (forall s1 s2 r g', make_move s1 s2 g = (r, g') ->
      (count_piece "K" (_board g') < count_piece "K" (_board g) \/
       count_piece "k" (_board g') < count_piece "k" (_board g))%nat ->
      _game_state g' <> UNFINISHED /\ forall ms, run_moves ms g' = g')).
Proof.
  intro g.
  assert (H : reachable g).
  { unfold g, knight_line, run_moves.
    repeat apply reach_move. apply reach_new. }
  split; [exact H | apply (king_invariant g H)].
Defined.

Lemma valid_move_space b t sr sc nr nc : _is_valid_move b t " " sr sc nr nc = inr false.
Proof. reflexivity. Qed.

Lemma same_sq_refl i j : same_sq i j i j = true.
Proof. unfold same_sq. rewrite !Z.eqb_refl. reflexivity. Qed.

(** C10: a call that returns [True] on a move whose destination held
    [" "] moves a piece other than [" "] to a different square: afterwards
    the origin holds [" "], the destination holds the piece, every other
    square is as before (no blast), and the game state is [UNFINISHED]. *)
Theorem quiet_move_frame (g g' : ChessVar) (s1 s2 : string) (sr sc nr nc : Z)
  (Hb : wf_board (_board g))
  (H : make_move s1 s2 g = (inr true, g'))
  (H1 : _convert_square_to_indices s1 = inr (sr, sc))
  (H2 : _convert_square_to_indices s2 = inr (nr, nc))
  (Hempty : get2 (_board g) nr nc = inr " "%char) :
  exists piece, piece <> " "%char /\
    get2 (_board g) sr sc = inr piece /\
    same_sq sr sc nr nc = false /\
    get2 (_board g') sr sc = inr " "%char /\
    get2 (_board g') nr nc = inr piece /\
    (forall i j, 0 <= i < 8 -> 0 <= j < 8 ->
       same_sq sr sc i j = false -> same_sq nr nc i j = false ->
       get2 (_board g') i j = get2 (_board g) i j) /\
    _game_state g' = UNFINISHED.
Proof.
  destruct (make_move_inv g s1 s2 _ g' H) as [[_ Hr] | (p & sr' & sc' & nr' & nc' & Hg & Hx)];
    [contradiction|].
  destruct Hg as (Hu & Hc1 & Hc2 & Hnr & Hnc & Hp & _ & Hv).
  rewrite H1 in Hc1. rewrite H2 in Hc2.
  inversion Hc1; subst sr' sc'. inversion Hc2; subst nr' nc'.
  assert (Hps : p <> " "%char).
  { intros ->. rewrite valid_move_space in Hv. discriminate. }
  destruct (get2_range _ _ _ _ Hb Hp) as [Hsr Hsc].
  destruct (apply_move_spec g p sr sc nr nc " " Hb Hsr Hsc Hnr Hnc Hempty)
    as (b1 & b2 & Hs1 & Hs2 & _ & _ & Ha).
  destruct (set2_ok (_board g) nr nc p Hb ltac:(lia) ltac:(lia)) as (b1' & Hs1' & Hb1 & Hcl1).
  rewrite Hs1 in Hs1'. inversion Hs1'; subst b1'.
  destruct (set2_ok b1 sr sc " " Hb1 Hsr Hsc) as (b2' & Hs2' & _ & Hcl2).
  rewrite Hs2 in Hs2'. inversion Hs2'; subst b2'.
  assert (Hne : same_sq sr sc nr nc = false).
  { destruct (same_sq sr sc nr nc) eqn:E; [|reflexivity]. exfalso. apply Hps.
    rewrite (same_sq_get2 _ sr sc nr nc Hb Hsr Hsc ltac:(lia) ltac:(lia) E), Hempty in Hp.
    inversion Hp. reflexivity. }
  destruct (execute_move_split _ _ _ _ _ _ _ _ Hx)
    as [g1 [(Ha' & _ & ->) | (e & Ha' & _ & ->)]];
    rewrite Ha in Ha'; inversion Ha'; subst g1.
  destruct (turn_updated_board (moved g b2 p " ")) as [-> ->].
  exists p. split; [exact Hps|]. split; [exact Hp|]. split; [exact Hne|].
  cbn [_board moved]. split; [|split; [|split]].
  - rewrite Hcl2, same_sq_refl by lia. reflexivity.
  - rewrite Hcl2, Hne, Hcl1, same_sq_refl by lia. reflexivity.
  - intros i j Hi Hj Ho Hd. rewrite Hcl2, Ho, Hcl1, Hd by lia. reflexivity.
  - cbn. exact Hu.
Qed.

Lemma quiet_move_frame_witness :
  let g' := snd (make_move "e2" "e4" new_ChessVar) in
  wf_board (_board new_ChessVar) /\
  make_move "e2" "e4" new_ChessVar = (inr true, g') /\
  _convert_square_to_indices "e2" = inr (6, 4) /\
  _convert_square_to_indices "e4" = inr (4, 4) /\
  get2 (_board new_ChessVar) 4 4 = inr " "%char /\
  exists piece, piece <> " "%char /\
    get2 (_board new_ChessVar) 6 4 = inr piece /\
    same_sq 6 4 4 4 = false /\
    get2 (_board g') 6 4 = inr " "%char /\
    get2 (_board g') 4 4 = inr piece /\
    (forall i j, 0 <= i < 8 -> 0 <= j < 8 ->
       same_sq 6 4 i j = false -> same_sq 4 4 i j = false ->
       get2 (_board g') i j = get2 (_board new_ChessVar) i j) /\
    _game_state g' = UNFINISHED.
Proof.
  intro g'.
  assert (Hb : wf_board (_board new_ChessVar)) by (vm_compute; repeat constructor).
  assert (H : make_move "e2" "e4" new_ChessVar = (inr true, g')) by (vm_compute; reflexivity).
  assert (H1 : _convert_square_to_indices "e2" = inr (6, 4)) by reflexivity.
  assert (H2 : _convert_square_to_indices "e4" = inr (4, 4)) by reflexivity.
  assert (He : get2 (_board new_ChessVar) 4 4 = inr " "%char) by reflexivity.
  split; [exact Hb|]. split; [exact H|]. split; [exact H1|]. split; [exact H2|].
  split; [exact He|].
  exact (quiet_move_frame new_ChessVar g' "e2" "e4" 6 4 4 4 Hb H H1 H2 He).
Defined.

(* ------------------------------------------------------------------ *)
(** ** [_is_valid_move] raises nothing for squares on the board *)

Ltac ret_ok := eexists; reflexivity.

Lemma bind_ok {A B} (m : exc A) (k : A -> exc B) :
  (exists x, m = inr x) -> (forall x, exists v, k x = inr v) ->
  exists v, xbind m k = inr v.
Proof. intros [x ->] H. apply H. Qed.

Lemma all_clear_ok (clear : Z -> exc bool) (xs : list Z) :
  (forall x, In x xs -> exists v, clear x = inr v) -> exists v, all_clear clear xs = inr v.
Proof.
  induction xs as [|x xs IH]; simpl; intros H; [ret_ok|].
  destruct (H x (or_introl eq_refl)) as [v Hv]. rewrite Hv. cbn [xbind].
  destruct v; [apply IH; auto | ret_ok].
Qed.

Lemma range_between (a b x : Z) :
  In x (py_range (a + step_of a b) b (step_of a b)) -> a < x < b \/ b < x < a.
Proof.
  unfold step_of. intros H. destruct (a <? b) eqn:E;
    [apply py_range_In_up in H | apply py_range_In_down in H];
    rewrite ?Z.ltb_lt, ?Z.ltb_ge in E; lia.
Qed.

Lemma diag_clear_ok (b : Board) (fuel : nat) (row col nr rs cs k : Z) :
  (forall t, 0 <= t < k -> exists x, get2 b (row + rs * t) (col + cs * t) = inr x) ->
  (row + rs * k = nr \/
   exists x, get2 b (row + rs * k) (col + cs * k) = inr x /\ ceq x " " = false) ->
  0 <= k ->
  exists v, diag_clear b fuel row col nr rs cs = inr v.
Proof.
  revert row col k. induction fuel as [|f IH]; intros row col k Hin Hend Hk; simpl; [ret_ok|].
  destruct (row =? nr) eqn:E; [ret_ok|]. apply Z.eqb_neq in E.
  destruct (Z.eq_dec k 0) as [->|Hk0].
  - destruct Hend as [Hend|(x & Hx & Hs)]; [lia|].
    rewrite !Z.mul_0_r, !Z.add_0_r in Hx. rewrite Hx. cbn [xbind]. rewrite Hs. ret_ok.
  - destruct (Hin 0 ltac:(lia)) as [x Hx]. rewrite !Z.mul_0_r, !Z.add_0_r in Hx.
    rewrite Hx. cbn [xbind]. destruct (ceq x " "); cbn [negb]; [|ret_ok].
    apply (IH _ _ (k - 1)); [| |lia].
    + intros t Ht.
      replace (row + rs + rs * t) with (row + rs * (t + 1)) by ring.
      replace (col + cs + cs * t) with (col + cs * (t + 1)) by ring. apply Hin. lia.
    + replace (row + rs + rs * (k - 1)) with (row + rs * k) by ring.
      replace (col + cs + cs * (k - 1)) with (col + cs * k) by ring. exact Hend.
Qed.

(** The diagonal walk of the bishop and the queen from a square holding a
    piece: towards the destination, or (start row = destination row) round
    the board back to its own square, which stops it. *)
Lemma diag_path_ok (b : Board) (fuel : nat) (sr sc nr nc : Z) (x : ascii) :
  wf_board b -> 0 <= sr < 8 -> 0 <= sc < 8 -> 0 <= nr < 8 -> 0 <= nc < 8 ->
  Z.abs (sr - nr) = Z.abs (sc - nc) ->
  get2 b sr sc = inr x -> ceq x " " = false ->
  exists v, diag_clear b fuel (sr + step_of sr nr) (sc + step_of sc nc) nr
                        (step_of sr nr) (step_of sc nc) = inr v.
Proof.
  intros Hb Hsr Hsc Hnr Hnc Habs Hx Hs.
  destruct (Z.eq_dec sr nr) as [<-|Hne].
  - assert (Ec : nc = sc) by lia. subst nc.
    unfold step_of. rewrite !Z.ltb_irrefl.
    apply (diag_clear_ok b fuel _ _ sr (-1) (-1) 7); [| |lia].
    + intros t Ht. apply get2_ok; [exact Hb | lia | lia].
    + right. exists x. split; [|exact Hs]. rewrite <- Hx. apply same_sq_get2; try lia; auto.
      unfold same_sq.
      replace (sr + -1 + -1 * 7) with (sr + (-1) * 8) by ring.
      replace (sc + -1 + -1 * 7) with (sc + (-1) * 8) by ring.
      rewrite !Z_mod_plus_full, !Z.eqb_refl. reflexivity.
  - unfold step_of.
    destruct (sr <? nr) eqn:E1, (sc <? nc) eqn:E2;
      rewrite ?Z.ltb_lt, ?Z.ltb_ge in E1, E2;
      apply (diag_clear_ok b fuel _ _ nr _ _ (Z.abs (sr - nr) - 1)); try lia;
      try (left; lia);
      intros t Ht; apply get2_ok; try exact Hb; lia.
Qed.

Lemma space_lower_cases (piece : ascii) (c : ascii) :
  ceq (lower piece) c = true -> ceq c " " = false -> ceq piece " " = false.
Proof.
  intros H Hc. destruct (ceq piece " ") eqn:E; [|reflexivity].
  apply Ascii.eqb_eq in E. subst piece. apply Ascii.eqb_eq in H. subst c.
  exact Hc.
Qed.

(** For a piece read from an on-board square and an on-board destination,
    [_is_valid_move] returns a verdict and raises nothing. *)
Lemma valid_move_ok (b : Board) (t : Turn) (piece : ascii) (sr sc nr nc : Z) :
  wf_board b -> 0 <= sr < 8 -> 0 <= sc < 8 -> 0 <= nr < 8 -> 0 <= nc < 8 ->
  get2 b sr sc = inr piece ->
  exists v, _is_valid_move b t piece sr sc nr nc = inr v.
Proof.
  intros Hb Hsr Hsc Hnr Hnc Hp.
  assert (G : forall i j, 0 <= i < 8 -> 0 <= j < 8 -> exists x, get2 b i j = inr x)
    by (intros; apply get2_ok; [exact Hb | lia | lia]).
  assert (D : exists v, dest_ok b piece nr nc = inr v).
  { unfold dest_ok. apply bind_ok; [apply G; lia | intros; ret_ok]. }
  unfold _is_valid_move.
  destruct (ceq (lower piece) "k").
  { destruct (_ && _); [exact D | ret_ok]. }
  destruct (ceq (lower piece) "p").
  { destruct (sc =? nc).
    - destruct (pawn_one_forward t sr nr).
      { apply bind_ok; [apply G; lia | intros; ret_ok]. }
      destruct (_ || _) eqn:E; [|ret_ok].
      apply bind_ok; [apply G; lia|]. intros d. destruct (ceq d " "); [|ret_ok].
      apply bind_ok; [|intros; ret_ok].
      apply G; [|lia]. split; [apply Z.div_pos; lia | apply Z.div_lt_upper_bound; lia].
    - destruct (_ && _); [|ret_ok]. apply bind_ok; [apply G; lia | intros; ret_ok]. }
  destruct (ceq (lower piece) "r").
  { destruct (negb _ && negb _); [ret_ok|].
    apply bind_ok; [|intros [|]; [exact D | ret_ok]].
    destruct (sr =? nr); apply all_clear_ok; intros x _;
      destruct (negb ((0 <=? x) && (x <? 8))) eqn:E; try ret_ok;
      rewrite negb_false_iff, andb_true_iff, Z.leb_le, Z.ltb_lt in E;
      (apply bind_ok; [apply G; lia | intros; ret_ok]). }
  destruct (ceq (lower piece) "n").
  { destruct (_ && _); [ret_ok|]. destruct (_ && _); [exact D | ret_ok]. }
  destruct (ceq (lower piece) "b") eqn:Eb.
  { destruct (negb _) eqn:Ea; [ret_ok|].
    rewrite negb_false_iff, Z.eqb_eq in Ea.
    apply bind_ok; [|intros [|]; [exact D | ret_ok]].
    apply (diag_path_ok b _ sr sc nr nc piece Hb Hsr Hsc Hnr Hnc Ea Hp).
    apply (space_lower_cases piece "b" Eb). reflexivity. }
  destruct (ceq (lower piece) "q") eqn:Eq; [|ret_ok].
  apply bind_ok; [|intros [|]; [exact D | ret_ok]].
  destruct (sr =? nr).
  { apply all_clear_ok. intros x Hx. apply range_between in Hx.
    apply bind_ok; [apply G; lia | intros; ret_ok]. }
  destruct (sc =? nc).
  { apply all_clear_ok. intros x Hx. apply range_between in Hx.
    apply bind_ok; [apply G; lia | intros; ret_ok]. }
  destruct (Z.abs (sr - nr) =? Z.abs (sc - nc)) eqn:Ea; [|ret_ok].
  apply Z.eqb_eq in Ea.
  apply (diag_path_ok b _ sr sc nr nc piece Hb Hsr Hsc Hnr Hnc Ea Hp).
  apply (space_lower_cases piece "q" Eq). reflexivity.
Qed.

(* ------------------------------------------------------------------ *)
(** ** Which calls raise *)

Lemma apply_move_ok g p sr sc nr nc :
  wf_board (_board g) -> -8 <= sr < 8 -> -8 <= sc < 8 -> 0 <= nr < 8 -> 0 <= nc < 8 ->
  exists g1, apply_move p sr sc nr nc g = (inr tt, g1).
Proof.
  intros Hb Hsr Hsc Hnr Hnc.
  destruct (get2_ok (_board g) nr nc Hb ltac:(lia) ltac:(lia)) as [y Hy].
  destruct (apply_move_spec g p sr sc nr nc y Hb Hsr Hsc Hnr Hnc Hy)
    as (b1 & b2 & _ & _ & _ & Hb2 & ->).
  destruct (ceq y " "); [eauto|].
  destruct (explosion_ok (moved g b2 p y) nr nc Hb2 Hnr Hnc) as (g3 & -> & _). eauto.
Qed.

Lemma execute_move_ok g p sr sc nr nc :
  wf_board (_board g) -> -8 <= sr < 8 -> -8 <= sc < 8 -> 0 <= nr < 8 -> 0 <= nc < 8 ->
  exists g', execute_move p sr sc nr nc g = (inr true, g').
Proof.
  intros Hb Hsr Hsc Hnr Hnc.
  destruct (apply_move_ok g p sr sc nr nc Hb Hsr Hsc Hnr Hnc) as [g1 Ha].
  exists (turn_updated g1). unfold execute_move, st_bind, st_ret.
  rewrite Ha, update_turn_spec. reflexivity.
Qed.

(** On a well-formed board a call raises only while converting a square or
    reading an origin that lies off the board, before any change. *)
Lemma make_move_raise_cases g s1 s2 e g' :
  wf_board (_board g) -> make_move s1 s2 g = (inl e, g') ->
  g' = g /\ _game_state g = UNFINISHED /\
  (_convert_square_to_indices s1 = inl e \/
   (exists q, _convert_square_to_indices s1 = inr q /\ _convert_square_to_indices s2 = inl e) \/
   exists sr sc, _convert_square_to_indices s1 = inr (sr, sc) /\ ~ (0 <= sr < 8 /\ 0 <= sc < 8)).
Proof.
  intros Hb H.
  unfold make_move, st_bind, get_state, get_turn, get_cell, lift, reads, st_ret in H.
  destruct (_game_state g) eqn:Est; simpl in H; try discriminate.
  destruct (_convert_square_to_indices s1) as [e1|[sr sc]] eqn:E1;
    [inversion H; subst; split; [reflexivity|]; split; [reflexivity|]; left; reflexivity|].
  destruct (_convert_square_to_indices s2) as [e2|[nr nc]] eqn:E2;
    [inversion H; subst; split; [reflexivity|]; split; [reflexivity|]; right; left; eauto|].
  destruct ((0 <=? nr) && (nr <? 8) && (0 <=? nc) && (nc <? 8)) eqn:Eb; simpl in H;
    [|discriminate].
  rewrite !andb_true_iff, ?Z.leb_le, ?Z.ltb_lt in Eb.
  assert (Hoff : forall x, get2 (_board g) sr sc = inr x ->
            (exists v, _is_valid_move (_board g) (_current_turn g) x sr sc nr nc = inl v) ->
            ~ (0 <= sr < 8 /\ 0 <= sc < 8)).
  { intros x Hx [v Hv] [Hr Hc].
    destruct (valid_move_ok (_board g) (_current_turn g) x sr sc nr nc Hb Hr Hc
                ltac:(lia) ltac:(lia) Hx) as [w Hw].
    rewrite Hw in Hv. discriminate. }
  destruct (get2 (_board g) sr sc) as [e3|piece] eqn:Ep.
  { injection H as <- <-. split; [reflexivity|]. split; [reflexivity|].
    right. right. exists sr, sc. split; [reflexivity|]. intros [Hr Hc].
    destruct (get2_ok (_board g) sr sc Hb ltac:(lia) ltac:(lia)) as [x Hx].
    rewrite Hx in Ep. discriminate. }
  destruct ((islower piece && turn_eqb (_current_turn g) W)
            || (isupper piece && turn_eqb (_current_turn g) B)) eqn:Eo; [discriminate|].
  destruct (_is_valid_move (_board g) (_current_turn g) piece sr sc nr nc)
    as [e4|[|]] eqn:Ev; try discriminate.
  - injection H as <- <-. split; [reflexivity|]. split; [reflexivity|].
    right. right. exists sr, sc. split; [reflexivity|]. apply (Hoff piece); eauto.
  - exfalso. destruct (get2_range _ _ _ _ Hb Ep) as [Hsr Hsc].
    destruct (execute_move_ok g piece sr sc nr nc Hb Hsr Hsc ltac:(lia) ltac:(lia))
      as [g2 Hx]. rewrite Hx in H. discriminate.
Qed.

Lemma convert_ok_iff (s : string) :
  (exists q, _convert_square_to_indices s = inr q) <->
  exists c d, s = String c (String d EmptyString) /\ (48 <= nat_of_ascii d <= 57)%nat.
Proof.
  destruct s as [|c [|d [|x s]]]; simpl;
    try (split; [intros [q Hq]; discriminate | intros (c' & d' & Hs & _); discriminate]).
  unfold py_int. split.
  - intros [q Hq]. exists c, d. split; [reflexivity|].
    destruct ((48 <=? nat_of_ascii d)%nat && (nat_of_ascii d <=? 57)%nat) eqn:E;
      [|discriminate].
    apply andb_true_iff in E as [E1 E2]. apply Nat.leb_le in E1, E2. lia.
  - intros (c' & d' & Hs & Hd). inversion Hs; subst c' d'.
    destruct (Nat.leb_spec 48 (nat_of_ascii d)), (Nat.leb_spec (nat_of_ascii d) 57);
      try lia. simpl. eauto.
Qed.

Lemma convert_error (s : string) (e : exn) :
  _convert_square_to_indices s = inl e -> e = ValueError.
Proof.
  destruct s as [|c [|d [|x s]]]; simpl; try (intros H; inversion H; reflexivity).
  unfold py_int, xbind.
  destruct ((48 <=? nat_of_ascii d)%nat && (nat_of_ascii d <=? 57)%nat);
    intros H; inversion H; reflexivity.
Qed.

(** A call that returns [False] on a well-formed board changes nothing. *)
Lemma make_move_false g s1 s2 g' :
  wf_board (_board g) -> make_move s1 s2 g = (inr false, g') -> g' = g.
Proof.
  intros Hb H.
  destruct (make_move_inv g s1 s2 _ g' H) as [[-> _] | (p & sr & sc & nr & nc & Hg & Hx)];
    [reflexivity|].
  destruct Hg as (_ & _ & _ & Hnr & Hnc & Hp & _ & _).
  destruct (get2_range _ _ _ _ Hb Hp) as [Hsr Hsc].
  destruct (execute_move_ok g p sr sc nr nc Hb Hsr Hsc Hnr Hnc) as [g2 Hx'].
  rewrite Hx' in Hx. discriminate.
Qed.

(** C7 (code): an origin off the board makes the call raise [IndexError]
    instead of returning [False]: "e0" converts to row 8, line 53 checks
    the bounds of the destination only, and line 56 reads
    [self._board[8]].  The object is left unchanged, but the call returns
    neither [True] nor [False]. *)
Lemma off_board_origin_raises :
  make_move "e0" "e4" new_ChessVar = (inl IndexError, new_ChessVar).
Proof. vm_compute. reflexivity. Qed.

(** X15: no call that fails to make a move changes the object: on a
    well-formed board, a call that returns [False] or raises leaves the
    board, the turn and the game state as they were, and a call that
    returns [True] is the execution of a move that passed every check of
    [make_move]. *)
Theorem make_move_atomic (g g' : ChessVar) (s1 s2 : string) (r : exc bool)
  (Hb : wf_board (_board g)) (H : make_move s1 s2 g = (r, g')) :
  (r = inr true /\ exists piece sr sc nr nc,
      passes_gate g s1 s2 piece sr sc nr nc /\
      execute_move piece sr sc nr nc g = (inr true, g'))
  \/ (r = inr false /\ g' = g)
  \/ (exists e, r = inl e /\ g' = g).
Proof.
  destruct (make_move_inv g s1 s2 r g' H) as [[-> Hr] | (p & sr & sc & nr & nc & Hg & Hx)].
  - destruct r as [e|[|]]; [right; right; eauto | contradiction | right; left; auto].
  - pose proof Hg as (_ & _ & _ & Hnr & Hnc & Hp & _ & _).
    destruct (get2_range _ _ _ _ Hb Hp) as [Hsr Hsc].
    destruct (execute_move_ok g p sr sc nr nc Hb Hsr Hsc Hnr Hnc) as [g2 Hx'].
    rewrite Hx' in Hx. injection Hx as <- <-. left. split; [reflexivity|].
    exists p, sr, sc, nr, nc. split; [exact Hg | exact Hx'].
Qed.

Lemma make_move_atomic_witness :
  let g' := snd (make_move "e2" "e4" new_ChessVar) in
  wf_board (_board new_ChessVar) /\
  make_move "e2" "e4" new_ChessVar = (inr true, g') /\
  ((@inr exn bool true = inr true /\ exists piece sr sc nr nc,
      passes_gate new_ChessVar "e2" "e4" piece sr sc nr nc /\
      execute_move piece sr sc nr nc new_ChessVar = (inr true, g'))
   \/ (@inr exn bool true = inr false /\ g' = new_ChessVar)
   \/ (exists e, @inr exn bool true = inl e /\ g' = new_ChessVar)).
Proof.
  intro g'.
  assert (Hb : wf_board (_board new_ChessVar)) by (vm_compute; repeat constructor).
  assert (H : make_move "e2" "e4" new_ChessVar = (inr true, g')) by (vm_compute; reflexivity).
  split; [exact Hb|]. split; [exact H|].
  exact (make_move_atomic new_ChessVar g' "e2" "e4" (inr true) Hb H).
Defined.

(** C3 (code): malformed notation makes [make_move] raise [ValueError]
    instead of returning [False]: a square of three characters or of one
    character fails the tuple unpacking [column, row = square], and a
    second character that is not a digit fails [int(row)]
    ([_convert_square_to_indices] has no guard and [make_move] catches
    nothing).  The object is left unchanged. *)
Lemma malformed_square_raises :
  make_move "e2x" "e4" new_ChessVar = (inl ValueError, new_ChessVar) /\
  make_move "e" "e4" new_ChessVar = (inl ValueError, new_ChessVar) /\
  make_move "ex" "e4" new_ChessVar = (inl ValueError, new_ChessVar) /\
  make_move "e2" "e44" new_ChessVar = (inl ValueError, new_ChessVar).
Proof. vm_compute. repeat split. Qed.

(* ------------------------------------------------------------------ *)
(** ** What an accepted move looks like *)

Lemma dest_ok_true b piece nr nc :
  dest_ok b piece nr nc = inr true ->
  exists d, get2 b nr nc = inr d /\ (d = " "%char \/ islower d <> islower piece).
Proof.
  unfold dest_ok. destruct (get2 b nr nc) as [e|d]; cbn [xbind]; intros H; [discriminate|].
  exists d. split; [reflexivity|]. injection H as H.
  destruct (ceq d " ") eqn:E; [left; apply Ascii.eqb_eq; exact E|right].
  cbn [orb] in H. destruct (islower d), (islower piece); cbn in H; congruence.
Qed.

Lemma all_clear_true (clear : Z -> exc bool) (xs : list Z) :
  all_clear clear xs = inr true -> forall x, In x xs -> clear x = inr true.
Proof.
  induction xs as [|y xs IH]; simpl; intros H x Hx; [contradiction|].
  destruct (clear y) as [e|[|]] eqn:E; cbn [xbind] in H; try discriminate.
  destruct Hx as [<-|Hx]; [exact E | apply IH; assumption].
Qed.

Lemma diag_clear_true b fuel row col nr rs cs :
  diag_clear b fuel row col nr rs cs = inr true ->
  exists k, 0 <= k /\ row + rs * k = nr /\
    forall t, 0 <= t < k -> get2 b (row + rs * t) (col + cs * t) = inr " "%char.
Proof.
  revert row col. induction fuel as [|f IH]; intros row col H; simpl in H; [discriminate|].
  destruct (row =? nr) eqn:E.
  - apply Z.eqb_eq in E. exists 0. split; [lia|]. split; [lia|]. intros; lia.
  - destruct (get2 b row col) as [e|c] eqn:Ec; cbn [xbind] in H; [discriminate|].
    destruct (ceq c " ") eqn:Es; cbn [negb] in H; [|discriminate].
    destruct (IH _ _ H) as (k & Hk & Hend & Hcl).
    exists (k + 1). split; [lia|]. split; [rewrite <- Hend; ring|].
    intros t Ht. destruct (Z.eq_dec t 0) as [->|Ht0].
    + rewrite !Z.mul_0_r, !Z.add_0_r, Ec. apply Ascii.eqb_eq in Es. subst c. reflexivity.
    + replace (row + rs * t) with (row + rs + rs * (t - 1)) by ring.
      replace (col + cs * t) with (col + cs + cs * (t - 1)) by ring.
      apply Hcl. lia.
Qed.

Ltac bool_hyps :=
  repeat match goal with
  | H : (_ && _) = true |- _ => apply andb_true_iff in H as [? ?]
  | H : (_ || _) = true |- _ => apply orb_true_iff in H as [?|?]
  | H : negb _ = true |- _ => apply negb_true_iff in H
  | H : negb _ = false |- _ => apply negb_false_iff in H
  | H : (_ =? _) = true |- _ => apply Z.eqb_eq in H
  | H : (_ =? _) = false |- _ => apply Z.eqb_neq in H
  | H : (_ <=? _) = true |- _ => apply Z.leb_le in H
  | H : (_ <? _) = true |- _ => apply Z.ltb_lt in H
  | H : turn_eqb ?t _ = true |- _ => destruct t; try discriminate H; clear H
  end.

Lemma accepted_shape b t piece sr sc nr nc :
  _is_valid_move b t piece sr sc nr nc = inr true ->
  (ceq (lower piece) "k" = true /\ Z.abs (sr - nr) <= 1 /\ Z.abs (sc - nc) <= 1) \/
  (ceq (lower piece) "p" = true /\ Z.abs (sc - nc) <= 1 /\ 1 <= Z.abs (sr - nr) <= 2) \/
  (ceq (lower piece) "r" = true /\ (sr = nr \/ sc = nc)) \/
  (ceq (lower piece) "n" = true /\
     ((Z.abs (sr - nr) = 1 /\ Z.abs (sc - nc) = 2) \/
      (Z.abs (sr - nr) = 2 /\ Z.abs (sc - nc) = 1))) \/
  (ceq (lower piece) "b" = true /\ Z.abs (sr - nr) = Z.abs (sc - nc)) \/
  (ceq (lower piece) "q" = true /\ (sr = nr \/ sc = nc \/ Z.abs (sr - nr) = Z.abs (sc - nc))).
Proof.
  unfold _is_valid_move. intros H.
  destruct (ceq (lower piece) "k") eqn:Ek.
  { left. destruct (_ && _) eqn:E; [|discriminate]. bool_hyps. auto. }
  destruct (ceq (lower piece) "p") eqn:Ep.
  { right; left. split; [reflexivity|].
    destruct (sc =? nc) eqn:E1.
    - destruct (pawn_one_forward t sr nr) eqn:E2.
      { unfold pawn_one_forward in E2. bool_hyps; lia. }
      destruct (_ || _) eqn:E3; [|discriminate]. bool_hyps; lia.
    - destruct (_ && _) eqn:E2; [|discriminate]. bool_hyps.
      unfold pawn_one_forward in *. bool_hyps; lia. }
  destruct (ceq (lower piece) "r") eqn:Er.
  { right; right; left. split; [reflexivity|].
    destruct (negb (sr =? nr) && negb (sc =? nc)) eqn:E; [discriminate|].
    apply andb_false_iff in E as [E|E]; bool_hyps; auto. }
  destruct (ceq (lower piece) "n") eqn:En.
  { do 3 right; left. split; [reflexivity|]. cbv zeta in H.
    destruct ((Z.abs (nr - sr) =? 1) && (Z.abs (nc - sc) =? 2)) eqn:E1;
      [bool_hyps; left; lia|].
    destruct ((Z.abs (nr - sr) =? 2) && (Z.abs (nc - sc) =? 1)) eqn:E2;
      [bool_hyps; right; lia | discriminate]. }
  destruct (ceq (lower piece) "b") eqn:Eb.
  { do 4 right; left. split; [reflexivity|].
    destruct (negb _) eqn:E; [discriminate|]. bool_hyps. assumption. }
  destruct (ceq (lower piece) "q") eqn:Eq; [|discriminate].
  do 5 right. split; [reflexivity|].
  destruct (sr =? nr) eqn:E1; [bool_hyps; auto|].
  destruct (sc =? nc) eqn:E2; [bool_hyps; auto|].
  destruct (Z.abs (sr - nr) =? Z.abs (sc - nc)) eqn:E3; [bool_hyps; auto | discriminate].
Qed.

(** X1: an accepted move has the shape of the piece's moves: a king moves
    at most one square each way, a pawn at most one column and one or two
    rows, a rook along its row or column, a knight in an L, a bishop
    diagonally, a queen along a row, a column or a diagonal; a character
    that is none of these six pieces (such as [" "]) is never accepted. *)
Theorem valid_move_shape b t piece sr sc nr nc :
  _is_valid_move b t piece sr sc nr nc = inr true ->
  (ceq (lower piece) "k" = true /\ Z.abs (sr - nr) <= 1 /\ Z.abs (sc - nc) <= 1) \/
  (ceq (lower piece) "p" = true /\ Z.abs (sc - nc) <= 1 /\ 1 <= Z.abs (sr - nr) <= 2) \/
  (ceq (lower piece) "r" = true /\ (sr = nr \/ sc = nc)) \/
  (ceq (lower piece) "n" = true /\
     ((Z.abs (sr - nr) = 1 /\ Z.abs (sc - nc) = 2) \/
      (Z.abs (sr - nr) = 2 /\ Z.abs (sc - nc) = 1))) \/
  (ceq (lower piece) "b" = true /\ Z.abs (sr - nr) = Z.abs (sc - nc)) \/
  (ceq (lower piece) "q" = true /\ (sr = nr \/ sc = nc \/ Z.abs (sr - nr) = Z.abs (sc - nc))).
Proof. exact (accepted_shape b t piece sr sc nr nc). Qed.

Lemma valid_move_shape_witness :
  _is_valid_move initial_board W "N" 7 6 5 5 = inr true /\
  ((ceq (lower "N") "k" = true /\ Z.abs (7 - 5) <= 1 /\ Z.abs (6 - 5) <= 1) \/
   (ceq (lower "N") "p" = true /\ Z.abs (6 - 5) <= 1 /\ 1 <= Z.abs (7 - 5) <= 2) \/
   (ceq (lower "N") "r" = true /\ (7 = 5 \/ 6 = 5)) \/
   (ceq (lower "N") "n" = true /\
      ((Z.abs (7 - 5) = 1 /\ Z.abs (6 - 5) = 2) \/ (Z.abs (7 - 5) = 2 /\ Z.abs (6 - 5) = 1))) \/
   (ceq (lower "N") "b" = true /\ Z.abs (7 - 5) = Z.abs (6 - 5)) \/
   (ceq (lower "N") "q" = true /\ (7 = 5 \/ 6 = 5 \/ Z.abs (7 - 5) = Z.abs (6 - 5)))).
Proof.
  assert (H : _is_valid_move initial_board W "N" 7 6 5 5 = inr true) by (vm_compute; reflexivity).
  split; [exact H | exact (valid_move_shape initial_board W "N" 7 6 5 5 H)].
Defined.

Lemma bind_get2_true b i j (k : ascii -> exc bool) :
  xbind (get2 b i j) k = inr true -> exists d, get2 b i j = inr d /\ k d = inr true.
Proof. destruct (get2 b i j) as [e|d]; cbn [xbind]; intros H; [discriminate | eauto]. Qed.

Lemma ceq_space_true d : ceq d " " = true -> d = " "%char.
Proof. apply Ascii.eqb_eq. Qed.

(** [let! clear := m in if clear then dest_ok ... else xret false]
    accepted: the path check passed and the destination check too. *)
Lemma xbind_match_true (m : exc bool) b piece nr nc :
  xbind m (fun clear => if clear then dest_ok b piece nr nc else xret false) = inr true ->
  m = inr true /\ exists d, get2 b nr nc = inr d /\ (d = " "%char \/ islower d <> islower piece).
Proof.
  destruct m as [e|[|]]; cbn [xbind]; intros H; try discriminate.
  split; [reflexivity | apply dest_ok_true; exact H].
Qed.

Lemma accepted_destination b t piece sr sc nr nc :
  _is_valid_move b t piece sr sc nr nc = inr true ->
  ~ (ceq (lower piece) "n" = true /\ Z.abs (nr - sr) = 1 /\ Z.abs (nc - sc) = 2) ->
  exists d, get2 b nr nc = inr d /\ (d = " "%char \/ islower d <> islower piece).
Proof.
  unfold _is_valid_move. intros H Hn.
  destruct (ceq (lower piece) "k") eqn:Ek.
  { destruct (_ && _); [apply dest_ok_true; exact H | discriminate]. }
  destruct (ceq (lower piece) "p") eqn:Ep.
  { destruct (sc =? nc).
    - destruct (pawn_one_forward t sr nr).
      { apply bind_get2_true in H as (d & Hd & H). injection H as H.
        exists d. split; [exact Hd | left; apply ceq_space_true; exact H]. }
      destruct (_ || _); [|discriminate].
      apply bind_get2_true in H as (d & Hd & H).
      destruct (ceq d " ") eqn:Es; [|discriminate].
      exists d. split; [exact Hd | left; apply ceq_space_true; exact Es].
    - destruct (_ && _); [|discriminate].
      apply bind_get2_true in H as (d & Hd & H). injection H as H. bool_hyps.
      exists d. split; [exact Hd|]. right.
      destruct (islower d), (islower piece); cbn in *; congruence. }
  destruct (ceq (lower piece) "r") eqn:Er.
  { destruct (_ && _); [discriminate|].
    apply xbind_match_true in H as [_ H']. exact H'. }
  destruct (ceq (lower piece) "n") eqn:En.
  { cbv zeta in H.
    destruct ((Z.abs (nr - sr) =? 1) && (Z.abs (nc - sc) =? 2)) eqn:E1.
    { bool_hyps. exfalso. apply Hn. auto. }
    destruct ((Z.abs (nr - sr) =? 2) && (Z.abs (nc - sc) =? 1));
      [apply dest_ok_true; exact H | discriminate]. }
  destruct (ceq (lower piece) "b") eqn:Eb.
  { destruct (negb _); [discriminate|].
    apply xbind_match_true in H as [_ H']. exact H'. }
  destruct (ceq (lower piece) "q") eqn:Eq; [|discriminate].
  apply xbind_match_true in H as [_ H']. exact H'.
Qed.

(** X2: the square an accepted move lands on is empty or holds a piece
    whose case differs from the moving piece's: this holds for every piece
    and every shape of move except the knight's one-row, two-column jump
    (see C2). *)
Theorem valid_move_destination b t piece sr sc nr nc :
  _is_valid_move b t piece sr sc nr nc = inr true ->
  ~ (ceq (lower piece) "n" = true /\ Z.abs (nr - sr) = 1 /\ Z.abs (nc - sc) = 2) ->
  exists d, get2 b nr nc = inr d /\ (d = " "%char \/ islower d <> islower piece).
Proof. exact (accepted_destination b t piece sr sc nr nc). Qed.

(** X3: an accepted pawn move goes one row forward (row [-1] on White's
    turn, [+1] on Black's) onto an empty square, or two rows forward from
    its start row (6 for White, 1 for Black) across an empty square onto an
    empty square, or one row forward and one column aside onto a square
    holding a piece of the other case. *)
Theorem pawn_move_rules b t piece sr sc nr nc :
  ceq (lower piece) "p" = true ->
  _is_valid_move b t piece sr sc nr nc = inr true ->
  let fwd := if turn_eqb t W then -1 else 1 in
  (sc = nc /\ nr = sr + fwd /\ get2 b nr nc = inr " "%char) \/
  (sc = nc /\ sr = (if turn_eqb t W then 6 else 1) /\ nr = sr + 2 * fwd /\
   get2 b nr nc = inr " "%char /\ get2 b (sr + fwd) nc = inr " "%char) \/
  (Z.abs (sc - nc) = 1 /\ nr = sr + fwd /\
   exists d, get2 b nr nc = inr d /\ d <> " "%char /\ islower d <> islower piece).
Proof.
  intros Hp H. apply Ascii.eqb_eq in Hp as Hp'.
  assert (Ek : ceq (lower piece) "k" = false) by (rewrite Hp'; reflexivity).
  unfold _is_valid_move in H. rewrite Ek, Hp in H. cbv beta iota in H. cbv zeta.
  destruct (sc =? nc) eqn:E1.
  - apply Z.eqb_eq in E1.
    destruct (pawn_one_forward t sr nr) eqn:E2.
    + left. apply bind_get2_true in H as (d & Hd & H). injection H as H.
      apply ceq_space_true in H. subst d.
      unfold pawn_one_forward in E2. bool_hyps; cbn; conj_split; auto; lia.
    + right; left.
      destruct ((turn_eqb t W && (sr =? 6) && (nr =? 4))
                || (turn_eqb t B && (sr =? 1) && (nr =? 3))) eqn:E3; [|discriminate].
      apply bind_get2_true in H as (d & Hd & H).
      destruct (ceq d " ") eqn:Es; [|discriminate].
      apply bind_get2_true in H as (m & Hm & H). injection H as H.
      apply ceq_space_true in Es, H. subst d m.
      bool_hyps; subst sr nr; cbn; conj_split; auto.
  - right; right.
    destruct ((Z.abs (sc - nc) =? 1) && pawn_one_forward t sr nr) eqn:E2; [|discriminate].
    apply bind_get2_true in H as (d & Hd & H). injection H as H.
    bool_hyps. unfold pawn_one_forward in *.
    assert (Hd' : d <> " "%char /\ islower d <> islower piece).
    { split.
      - intros ->. discriminate.
      - destruct (islower d), (islower piece); cbn in *; congruence. }
    bool_hyps; cbn; (split; [lia|]); (split; [lia|]); exists d; tauto.
Qed.

Lemma step_of_cases a b : (a < b /\ step_of a b = 1) \/ (b <= a /\ step_of a b = -1).
Proof. unfold step_of. destruct (Z.ltb_spec a b); [left|right]; auto. Qed.

Lemma between_range (a b x : Z) :
  a < x < b \/ b < x < a -> In x (py_range (a + step_of a b) b (step_of a b)).
Proof.
  intros H. destruct (step_of_cases a b) as [[Hl ->]|[Hl ->]];
    [apply py_range_In_up | apply py_range_In_down]; lia.
Qed.

Lemma lower_is (c x : ascii) : ceq (lower c) x = true -> lower c = x.
Proof. apply Ascii.eqb_eq. Qed.

Ltac not_kind piece Hl H x :=
  let E := fresh "E" in
  destruct (ceq (lower piece) x) eqn:E; [rewrite Hl in E; discriminate E|].

(** The rook's square test [not 0 <= x < 8 or cell != ' '] passed. *)
Lemma guarded_clear_true b i j (x : Z) :
  (if negb ((0 <=? x) && (x <? 8)) then xret false
   else let! c := get2 b i j in xret (ceq c " ")) = inr true ->
  get2 b i j = inr " "%char.
Proof.
  destruct (negb ((0 <=? x) && (x <? 8))); intros H; [discriminate|].
  apply bind_get2_true in H as (d & Hd & H). injection H as H.
  apply ceq_space_true in H. subst d. exact Hd.
Qed.

(** X4: an accepted rook or queen move along a row or a column passes only
    over empty squares: every square strictly between the origin and the
    destination is [" "]. *)
Theorem straight_path_clear b t piece sr sc nr nc :
  _is_valid_move b t piece sr sc nr nc = inr true ->
  ceq (lower piece) "r" = true \/ ceq (lower piece) "q" = true ->
  (sr = nr -> forall c, sc < c < nc \/ nc < c < sc -> get2 b sr c = inr " "%char) /\
  (sr <> nr -> sc = nc -> forall r, sr < r < nr \/ nr < r < sr -> get2 b r sc = inr " "%char).
Proof.
  intros H Hk. unfold _is_valid_move in H.
  destruct Hk as [Hk|Hk]; apply lower_is in Hk as Hl.
  - not_kind piece Hl H "k"%char. not_kind piece Hl H "p"%char.
    rewrite Hk in H. cbv beta iota in H.
    destruct (negb (sr =? nr) && negb (sc =? nc)); [discriminate|].
    apply xbind_match_true in H as [Hc _].
    split.
    + intros <- c Hc'. rewrite Z.eqb_refl in Hc.
      pose proof (all_clear_true _ _ Hc c (between_range _ _ _ Hc')) as Hx.
      exact (guarded_clear_true b sr c c Hx).
    + intros Hne <- r Hr'. apply Z.eqb_neq in Hne. rewrite Hne in Hc.
      pose proof (all_clear_true _ _ Hc r (between_range _ _ _ Hr')) as Hx.
      exact (guarded_clear_true b r sc r Hx).
  - not_kind piece Hl H "k"%char. not_kind piece Hl H "p"%char.
    not_kind piece Hl H "r"%char. not_kind piece Hl H "n"%char.
    not_kind piece Hl H "b"%char.
    rewrite Hk in H. cbv beta iota in H.
    apply xbind_match_true in H as [Hc _].
    split.
    + intros <- c Hc'. rewrite Z.eqb_refl in Hc.
      pose proof (all_clear_true _ _ Hc c (between_range _ _ _ Hc')) as Hx.
      apply bind_get2_true in Hx as (d & Hd & Hx). injection Hx as Hx.
      apply ceq_space_true in Hx. subst d. exact Hd.
    + intros Hne <- r Hr'. apply Z.eqb_neq in Hne. rewrite Hne, Z.eqb_refl in Hc.
      pose proof (all_clear_true _ _ Hc r (between_range _ _ _ Hr')) as Hx.
      apply bind_get2_true in Hx as (d & Hd & Hx). injection Hx as Hx.
      apply ceq_space_true in Hx. subst d. exact Hd.
Qed.

(** X5: an accepted diagonal move of a bishop or a queen passes only over
    empty squares: the [k]-th square along the diagonal, for [0 < k] below
    the number of rows covered, is [" "]. *)
Theorem diagonal_path_clear b t piece sr sc nr nc :
  _is_valid_move b t piece sr sc nr nc = inr true ->
  ceq (lower piece) "b" = true \/ ceq (lower piece) "q" = true ->
  sr <> nr -> sc <> nc ->
  forall k, 0 < k < Z.abs (nr - sr) ->
    get2 b (sr + k * step_of sr nr) (sc + k * step_of sc nc) = inr " "%char.
Proof.
  intros H Hk Hr Hc k Hkr. unfold _is_valid_move in H.
  assert (Hd : exists fuel, diag_clear b fuel (sr + step_of sr nr) (sc + step_of sc nc) nr
                              (step_of sr nr) (step_of sc nc) = inr true).
  { destruct Hk as [Hk|Hk]; apply lower_is in Hk as Hl.
    - not_kind piece Hl H "k"%char. not_kind piece Hl H "p"%char.
      not_kind piece Hl H "r"%char. not_kind piece Hl H "n"%char.
      rewrite Hk in H. cbv beta iota zeta in H.
      destruct (negb _); [discriminate|].
      apply xbind_match_true in H as [H _]. eauto.
    - not_kind piece Hl H "k"%char. not_kind piece Hl H "p"%char.
      not_kind piece Hl H "r"%char. not_kind piece Hl H "n"%char.
      not_kind piece Hl H "b"%char.
      rewrite Hk in H. cbv beta iota zeta in H.
      apply xbind_match_true in H as [H _].
      apply Z.eqb_neq in Hr, Hc. rewrite Hr, Hc in H.
      destruct (Z.abs (sr - nr) =? Z.abs (sc - nc)); [eauto | discriminate]. }
  destruct Hd as [fuel Hd].
  destruct (diag_clear_true _ _ _ _ _ _ _ Hd) as (k0 & Hk0 & Hend & Hcl).
  replace (sr + k * step_of sr nr) with (sr + step_of sr nr + step_of sr nr * (k - 1)) by ring.
  replace (sc + k * step_of sc nc) with (sc + step_of sc nc + step_of sc nc * (k - 1)) by ring.
  apply Hcl.
  destruct (step_of_cases sr nr) as [[Hl Hs]|[Hl Hs]]; rewrite Hs in Hend; lia.
Qed.

Lemma kind_letter (x : ascii) :
  (ceq (lower x) "k" || ceq (lower x) "p" || ceq (lower x) "r" || ceq (lower x) "n"
   || ceq (lower x) "b" || ceq (lower x) "q") = true ->
  (isupper x || islower x) = true.
Proof.
  destruct x as [[] [] [] [] [] [] [] []]; vm_compute; intros H;
    first [reflexivity | discriminate H].
Qed.

Lemma accepted_kind b t piece sr sc nr nc :
  _is_valid_move b t piece sr sc nr nc = inr true ->
  (ceq (lower piece) "k" || ceq (lower piece) "p" || ceq (lower piece) "r"
   || ceq (lower piece) "n" || ceq (lower piece) "b" || ceq (lower piece) "q") = true.
Proof.
  intros H.
  destruct (accepted_shape _ _ _ _ _ _ _ H) as [[E _]|[[E _]|[[E _]|[[E _]|[[E _]|[E _]]]]]];
    rewrite E; rewrite ?orb_true_r; reflexivity.
Qed.

(** On a well-formed board, a piece never passes [_is_valid_move] for the
    move onto its own square. *)
Lemma accepted_not_null b t piece r c :
  wf_board b -> 0 <= r < 8 -> 0 <= c < 8 -> get2 b r c = inr piece ->
  _is_valid_move b t piece r c r c = inr false.
Proof.
  intros Hb Hr Hc Hp.
  destruct (valid_move_ok b t piece r c r c Hb Hr Hc Hr Hc Hp) as [[|] Hv]; [|exact Hv].
  exfalso. destruct (accepted_destination b t piece r c r c Hv) as (d & Hd & Hd').
  { intros (_ & Hz & _). rewrite Z.sub_diag in Hz. discriminate. }
  rewrite Hp in Hd. injection Hd as <-.
  destruct Hd' as [->|Hd']; [|apply Hd'; reflexivity].
  rewrite valid_move_space in Hv. discriminate.
Qed.

(** X6: a call naming the same on-board square as origin and destination
    is refused: on a well-formed board it returns [False] and leaves the
    object unchanged, whatever the piece there and whoever is to move. *)
Theorem make_move_same_square (g : ChessVar) (s : string) (r c : Z)
  (Hb : wf_board (_board g)) (Hs : _convert_square_to_indices s = inr (r, c))
  (Hr : 0 <= r < 8) (Hc : 0 <= c < 8) :
  make_move s s g = (inr false, g).
Proof.
  destruct (make_move s s g) as [res g'] eqn:E.
  destruct (make_move_inv g s s res g' E)
    as [[-> Hres] | (p & sr & sc & nr & nc & Hg & _)].
  - destruct res as [e|[|]]; [exfalso | contradiction | reflexivity].
    destruct (make_move_raise_cases g s s e g Hb E)
      as (_ & _ & [E1 | [(q & _ & E1) | (sr & sc & E1 & Hoff)]]); rewrite Hs in E1;
      try discriminate.
    injection E1 as <- <-. auto.
  - exfalso. destruct Hg as (_ & H1 & H2 & _ & _ & Hp & _ & Hv).
    rewrite Hs in H1, H2. injection H1 as <- <-. injection H2 as <- <-.
    rewrite (accepted_not_null _ _ p r c Hb Hr Hc Hp) in Hv. discriminate.
Qed.

(** X7: a call that returns [True] moved a piece of the player to move: the
    origin held a letter, upper-case on White's turn and lower-case on
    Black's. *)
Theorem make_move_moves_own_piece (g g' : ChessVar) (s1 s2 : string) (sr sc : Z)
  (H : make_move s1 s2 g = (inr true, g'))
  (Hs : _convert_square_to_indices s1 = inr (sr, sc)) :
  exists piece, get2 (_board g) sr sc = inr piece /\
    (_current_turn g = W -> isupper piece = true) /\
    (_current_turn g = B -> islower piece = true).
Proof.
  destruct (make_move_inv g s1 s2 _ g' H) as [[_ Hr] | (p & sr' & sc' & nr & nc & Hg & _)];
    [contradiction|].
  destruct Hg as (_ & H1 & _ & _ & _ & Hp & Ho & Hv).
  rewrite Hs in H1. injection H1 as <- <-.
  exists p. split; [exact Hp|].
  pose proof (kind_letter p (accepted_kind _ _ _ _ _ _ _ Hv)) as Hl.
  destruct (_current_turn g); cbn [turn_eqb] in Ho; rewrite ?andb_true_r, ?andb_false_r in Ho;
    rewrite ?orb_false_r, ?orb_false_l in Ho; split; intros Ht; try discriminate Ht;
    rewrite Ho in Hl; rewrite ?orb_false_r, ?orb_false_l in Hl; exact Hl.
Qed.

(* ------------------------------------------------------------------ *)
(** ** Pieces on the board across a call *)

Lemma moved_count_any (b b1 b2 : Board) (p y X : ascii) (sr sc nr nc : Z) :
  wf_board b -> get2 b sr sc = inr p -> get2 b nr nc = inr y ->
  set2 b nr nc p = inr b1 -> set2 b1 sr sc " " = inr b2 -> ceq " " X = false ->
  (count_piece X b2 + (if ceq y X then 1 else 0) = count_piece X b)%nat.
Proof.
  intros Hb Hp Hy Hs1 Hs2 HX.
  destruct (get2_range b sr sc p Hb Hp) as [Hsr Hsc].
  destruct (get2_range b nr nc y Hb Hy) as [Hnr Hnc].
  destruct (set2_ok b nr nc p Hb Hnr Hnc) as (b1' & Hs1' & Hb1 & Hc1).
  rewrite Hs1 in Hs1'. inversion Hs1'; subst b1'.
  assert (Hp1 : get2 b1 sr sc = inr p).
  { rewrite Hc1 by assumption. destruct (same_sq nr nc sr sc); [reflexivity | exact Hp]. }
  pose proof (count_set2 b b1 nr nc p y X Hb Hs1 Hy) as H1.
  pose proof (count_set2 b1 b2 sr sc " " p X Hb1 Hs2 Hp1) as H2.
  rewrite HX in H2. destruct (ceq p X), (ceq y X); lia.
Qed.

Lemma explosion_count_any (g g' : ChessVar) (r c : Z) (X : ascii) :
  wf_board (_board g) -> 0 <= r < 8 -> 0 <= c < 8 -> ceq " " X = false ->
  _explosion r c g = (inr tt, g') ->
  (count_piece X (_board g') <= count_piece X (_board g))%nat.
Proof.
  intros Hb Hr Hc HX He. rewrite explosion_flat in He.
  assert (Hrange : forall q, q ∈ blast_squares r c -> 0 <= fst q < 8 /\ 0 <= snd q < 8).
  { intros q Hq. apply blast_squares_In in Hq. unfold in_blast in Hq. lia. }
  destruct (explode_list_spec (blast_squares r c) g Hb
              (sorted_NoDup _ (blast_squares_sorted r c)) Hrange)
    as (g1 & Hrun & _ & _ & _ & Hcell).
  rewrite He in Hrun. injection Hrun as <-.
  unfold count_piece. apply count_where_le.
  intros [i j] Hq Ht. apply squares_In in Hq. cbn [fst snd] in Hq, Ht |- *.
  rewrite Hcell in Ht by lia.
  destruct (hits (blast_squares r c) i j && non_pawn (get2 (_board g) i j)); [|exact Ht].
  rewrite HX in Ht. discriminate.
Qed.

(** X8: a call never adds a piece: on a well-formed board, for every
    character other than [" "], the number of squares holding it after the
    call is at most the number before (no piece appears, none is promoted). *)
Theorem make_move_no_new_pieces (g g' : ChessVar) (s1 s2 : string) (r : exc bool) (X : ascii)
  (Hb : wf_board (_board g)) (H : make_move s1 s2 g = (r, g')) (HX : X <> " "%char) :
  (count_piece X (_board g') <= count_piece X (_board g))%nat.
Proof.
  assert (HX' : ceq " " X = false).
  { destruct (ceq " " X) eqn:E; [|reflexivity]. apply Ascii.eqb_eq in E. congruence. }
  destruct (make_move_inv g s1 s2 r g' H) as [[-> _] | (p & sr & sc & nr & nc & Hg & Hx)];
    [lia|].
  destruct Hg as (_ & _ & _ & Hnr & Hnc & Hp & _ & _).
  destruct (get2_range _ _ _ _ Hb Hp) as [Hsr Hsc].
  destruct (get2_ok (_board g) nr nc Hb ltac:(lia) ltac:(lia)) as [y Hy].
  destruct (apply_move_spec g p sr sc nr nc y Hb Hsr Hsc Hnr Hnc Hy)
    as (b1 & b2 & Hs1 & Hs2 & _ & Hb2 & Ha).
  pose proof (moved_count_any _ b1 b2 p y X sr sc nr nc Hb Hp Hy Hs1 Hs2 HX') as Hcnt.
  destruct (execute_move_split _ _ _ _ _ _ _ _ Hx)
    as [g1 [(Ha' & _ & ->) | (e & Ha' & _ & ->)]].
  - rewrite Ha in Ha'. destruct (turn_updated_board g1) as [-> _].
    destruct (ceq y " ").
    + injection Ha' as <-. cbn [_board moved]. lia.
    + pose proof (explosion_count_any (moved g b2 p y) g1 nr nc X Hb2 Hnr Hnc HX' Ha') as Hle.
      cbn [_board moved] in Hle. lia.
  - exfalso. rewrite Ha in Ha'. destruct (ceq y " "); [discriminate|].
    destruct (explosion_ok (moved g b2 p y) nr nc Hb2 Hnr Hnc) as (g3 & He & _).
    rewrite He in Ha'. discriminate.
Qed.

(* ------------------------------------------------------------------ *)
(** ** Captures *)

(** A move accepted onto a square holding a piece does not start where it
    ends. *)
Lemma capture_not_null b t p y sr sc nr nc :
  wf_board b -> -8 <= sr < 8 -> -8 <= sc < 8 -> 0 <= nr < 8 -> 0 <= nc < 8 ->
  get2 b sr sc = inr p -> get2 b nr nc = inr y -> y <> " "%char ->
  _is_valid_move b t p sr sc nr nc = inr true -> same_sq sr sc nr nc = false.
Proof.
  intros Hb Hsr Hsc Hnr Hnc Hp Hy Hcap Hv.
  destruct (same_sq sr sc nr nc) eqn:E; [exfalso|reflexivity].
  rewrite (same_sq_get2 _ sr sc nr nc Hb Hsr Hsc ltac:(lia) ltac:(lia) E), Hy in Hp.
  injection Hp as <-.
  destruct (accepted_destination b t y sr sc nr nc Hv) as (d & Hd & Hd').
  { intros (_ & Hz & _). unfold same_sq in E. rewrite andb_true_iff, !Z.eqb_eq in E.
    destruct E as [E _]. Z.div_mod_to_equations. lia. }
  rewrite Hy in Hd. injection Hd as <-.
  destruct Hd' as [Hd'|Hd']; [exact (Hcap Hd') | apply Hd'; reflexivity].
Qed.

(** X9: an accepted move onto a square holding a piece empties the origin,
    leaves the moving piece on the destination only when it is a pawn (any
    other piece is blown up there), and changes no square outside the
    3x3 area around the destination other than the origin. *)
Theorem capture_move_effect (g g' : ChessVar) (s1 s2 : string) (sr sc nr nc : Z) (y : ascii)
  (Hb : wf_board (_board g))
  (H : make_move s1 s2 g = (inr true, g'))
  (H1 : _convert_square_to_indices s1 = inr (sr, sc))
  (H2 : _convert_square_to_indices s2 = inr (nr, nc))
  (Hy : get2 (_board g) nr nc = inr y) (Hcap : y <> " "%char) :
  exists piece, get2 (_board g) sr sc = inr piece /\
    get2 (_board g') sr sc = inr " "%char /\
    get2 (_board g') nr nc = inr (if ceq (lower piece) "p" then piece else " "%char) /\
    (forall i j, 0 <= i < 8 -> 0 <= j < 8 ->
       ~ in_blast nr nc i j -> same_sq sr sc i j = false ->
       get2 (_board g') i j = get2 (_board g) i j).
Proof.
  destruct (make_move_inv g s1 s2 _ g' H) as [[_ Hr] | (p & sr' & sc' & nr' & nc' & Hg & Hx)];
    [contradiction|].
  destruct Hg as (_ & Hc1 & Hc2 & Hnr & Hnc & Hp & _ & Hv).
  rewrite H1 in Hc1. rewrite H2 in Hc2.
  injection Hc1 as <- <-. injection Hc2 as <- <-.
  destruct (get2_range _ _ _ _ Hb Hp) as [Hsr Hsc].
  pose proof (capture_not_null _ _ _ _ _ _ _ _ Hb Hsr Hsc Hnr Hnc Hp Hy Hcap Hv) as Hne.
  destruct (apply_move_spec g p sr sc nr nc y Hb Hsr Hsc Hnr Hnc Hy)
    as (b1 & b2 & Hs1 & Hs2 & _ & Hb2 & Ha).
  destruct (set2_ok (_board g) nr nc p Hb ltac:(lia) ltac:(lia)) as (b1' & Hs1' & Hb1 & Hcl1).
  rewrite Hs1 in Hs1'. injection Hs1' as <-.
  destruct (set2_ok b1 sr sc " " Hb1 Hsr Hsc) as (b2' & Hs2' & _ & Hcl2).
  rewrite Hs2 in Hs2'. injection Hs2' as <-.
  assert (Ey : ceq y " " = false).
  { destruct (ceq y " ") eqn:E; [|reflexivity]. apply Ascii.eqb_eq in E. contradiction. }
  rewrite Ey, explosion_flat in Ha.
  assert (Hrange : forall q, q ∈ blast_squares nr nc -> 0 <= fst q < 8 /\ 0 <= snd q < 8).
  { intros q Hq. apply blast_squares_In in Hq. unfold in_blast in Hq. lia. }
  destruct (explode_list_spec (blast_squares nr nc) (moved g b2 p y) Hb2
              (sorted_NoDup _ (blast_squares_sorted nr nc)) Hrange)
    as (g3 & Hrun & _ & _ & _ & Hcell).
  rewrite Hrun in Ha.
  destruct (execute_move_split _ _ _ _ _ _ _ _ Hx)
    as [g1 [(Ha' & _ & ->) | (e & Ha' & _ & _)]]; rewrite Ha in Ha'; [|discriminate].
  injection Ha' as <-. destruct (turn_updated_board g3) as [-> _].
  cbn [_board moved] in Hcell.
  exists p. split; [exact Hp|]. split; [|split].
  - rewrite Hcell, Hcl2, same_sq_refl by lia.
    destruct (hits (blast_squares nr nc) sr sc && non_pawn (inr " "%char)); reflexivity.
  - rewrite Hcell, Hcl2, Hne, Hcl1, same_sq_refl by lia.
    rewrite (proj2 (hits_blast nr nc nr nc Hnr Hnc)) by (unfold in_blast; lia).
    cbn [andb non_pawn]. destruct (ceq (lower p) "p"); reflexivity.
  - intros i j Hi Hj Hout Ho. rewrite Hcell by lia.
    destruct (hits (blast_squares nr nc) i j) eqn:Eh.
    { apply (hits_blast nr nc i j Hi Hj) in Eh. contradiction. }
    cbn [andb]. rewrite Hcl2, Ho, Hcl1 by lia.
    destruct (same_sq nr nc i j) eqn:Ed; [|reflexivity].
    apply same_sq_small in Ed as [<- <-]; auto.
    exfalso. apply Hout. unfold in_blast. lia.
Qed.

(** X10: a call on a running game that ends it moved a piece onto a square
    that held a piece: the call returned [True], and the destination named
    by [next_square] was not empty before the call. *)
Theorem game_ends_only_on_capture (g g' : ChessVar) (s1 s2 : string) (r : exc bool)
  (nr nc : Z)
  (Hb : wf_board (_board g)) (Hu : _game_state g = UNFINISHED)
  (H : make_move s1 s2 g = (r, g')) (Hend : _game_state g' <> UNFINISHED)
  (H2 : _convert_square_to_indices s2 = inr (nr, nc)) :
  r = inr true /\ exists y, get2 (_board g) nr nc = inr y /\ y <> " "%char.
Proof.
  destruct (make_move_inv g s1 s2 r g' H) as [[-> _] | (p & sr & sc & nr' & nc' & Hg & Hx)];
    [contradiction|].
  destruct Hg as (_ & _ & Hc2 & Hnr & Hnc & Hp & _ & _).
  rewrite H2 in Hc2. injection Hc2 as <- <-.
  destruct (get2_range _ _ _ _ Hb Hp) as [Hsr Hsc].
  destruct (execute_move_ok g p sr sc nr nc Hb Hsr Hsc Hnr Hnc) as [g2 Hx'].
  rewrite Hx' in Hx. injection Hx as <- <-. split; [reflexivity|].
  destruct (get2_ok (_board g) nr nc Hb ltac:(lia) ltac:(lia)) as [y Hy].
  exists y. split; [exact Hy|]. intros ->.
  destruct (apply_move_spec g p sr sc nr nc " " Hb Hsr Hsc Hnr Hnc Hy)
    as (b1 & b2 & _ & _ & _ & _ & Ha).
  destruct (execute_move_split _ _ _ _ _ _ _ _ Hx')
    as [g1 [(Ha' & _ & ->) | (e & Ha' & _ & _)]]; rewrite Ha in Ha'; [|discriminate].
  injection Ha' as <-. destruct (turn_updated_board (moved g b2 p " ")) as [_ E].
  apply Hend. rewrite E. exact Hu.
Qed.

(* ------------------------------------------------------------------ *)
(** ** A second blast *)

(** Two well-formed boards that agree on every square are equal. *)
Lemma board_ext (b b' : Board) :
  wf_board b -> wf_board b' ->
  (forall i j, 0 <= i < 8 -> 0 <= j < 8 -> get2 b i j = get2 b' i j) -> b = b'.
Proof.
  intros Hb Hb' H.
  assert (Hc : forall i j, (i < 8)%nat -> (j < 8)%nat -> cell b i j = cell b' i j).
  { intros i j Hi Hj.
    destruct (get2_cell b (Z.of_nat i) (Z.of_nat j) Hb ltac:(lia) ltac:(lia))
      as [x [Hx Hgx]].
    destruct (get2_cell b' (Z.of_nat i) (Z.of_nat j) Hb' ltac:(lia) ltac:(lia))
      as [x' [Hx' Hgx']].
    rewrite !nidx_id, !Nat2Z.id in Hx, Hx' by lia.
    rewrite H in Hgx by lia. congruence. }
  destruct Hb as [Hl Hr], Hb' as [Hl' Hr'].
  apply list_eq. intros i. destruct (decide (i < 8)%nat) as [Hi|Hi].
  - destruct (lookup_lt_is_Some_2 b i) as [row Hrow]; [lia|].
    destruct (lookup_lt_is_Some_2 b' i) as [row' Hrow']; [lia|].
    rewrite Hrow, Hrow'. f_equal.
    assert (length row = 8%nat) by (rewrite Forall_lookup in Hr; eauto).
    assert (length row' = 8%nat) by (rewrite Forall_lookup in Hr'; eauto).
    apply list_eq. intros j. destruct (decide (j < 8)%nat) as [Hj|Hj].
    + pose proof (Hc i j Hi Hj) as E. unfold cell in E. rewrite Hrow, Hrow' in E. exact E.
    + rewrite !lookup_ge_None_2 by lia. reflexivity.
  - rewrite !lookup_ge_None_2 by lia. reflexivity.
Qed.

Lemma hits_self (L : list (Z * Z)) (q : Z * Z) : q ∈ L -> hits L (fst q) (snd q) = true.
Proof.
  intros Hq. unfold hits. apply existsb_exists. exists q. split.
  - apply list_elem_of_In. exact Hq.
  - apply same_sq_refl.
Qed.

(** X11: exploding the same centre a second time changes nothing: after
    [_explosion r c] on a well-formed board, a second [_explosion r c]
    leaves every square, the turn and the game state as they are. *)
Theorem explosion_idempotent (g g1 : ChessVar) (r c : Z)
  (Hb : wf_board (_board g)) (H : _explosion r c g = (inr tt, g1)) :
  _explosion r c g1 = (inr tt, g1).
Proof.
  rewrite explosion_flat in *.
  set (L := blast_squares r c) in *.
  assert (Hrange : forall q, q ∈ L -> 0 <= fst q < 8 /\ 0 <= snd q < 8).
  { intros q Hq. apply blast_squares_In in Hq. unfold in_blast in Hq. lia. }
  pose proof (sorted_NoDup _ (blast_squares_sorted r c)) as Hnd. fold L in Hnd.
  destruct (explode_list_spec L g Hb Hnd Hrange) as (g2 & Hrun & Hb2 & _ & _ & Hc2).
  rewrite H in Hrun. injection Hrun as <-.
  destruct (explode_list_spec L g1 Hb2 Hnd Hrange) as (g3 & Hrun & Hb3 & Ht3 & Hs3 & Hc3).
  rewrite Hrun. f_equal.
  assert (Hcell : forall i j, 0 <= i < 8 -> 0 <= j < 8 ->
                    get2 (_board g3) i j = get2 (_board g1) i j).
  { intros i j Hi Hj. rewrite Hc3 by lia.
    destruct (hits L i j) eqn:Eh; [|reflexivity]. cbn [andb].
    rewrite Hc2 by lia. rewrite Eh. cbn [andb].
    destruct (non_pawn (get2 (_board g) i j)) eqn:En.
    - destruct (non_pawn (inr " "%char)); reflexivity.
    - rewrite En. reflexivity. }
  assert (Hst : _game_state g3 = _game_state g1).
  { rewrite Hs3. apply blast_fold_no_king. intros q x Hq Hx.
    destruct (Hrange q Hq) as [Hi Hj].
    rewrite Hc2, (hits_self L q Hq) in Hx by lia. cbn [andb] in Hx.
    destruct (non_pawn (get2 (_board g) (fst q) (snd q))) eqn:En.
    - injection Hx as <-. reflexivity.
    - rewrite Hx in En. cbn [non_pawn] in En. rewrite lower_p_iff in En.
      destruct x as [[] [] [] [] [] [] [] []]; try discriminate En; reflexivity. }
  pose proof (board_ext _ _ Hb3 Hb2 Hcell) as Hbd.
  destruct g1 as [b1 t1 st1], g3 as [b3 t3 st3]. cbn in *. congruence.
Qed.

(* ------------------------------------------------------------------ *)
(** ** Square names *)

(** The two-character name of the square in row [i], column [j]: the
    letter [chr(ord('a') + j)] and the digit [chr(ord('8') - i)]. *)
Definition square_name (i j : Z) : string :=
  String (ascii_of_nat (Z.to_nat (ord "a"%char + j)))
         (String (ascii_of_nat (Z.to_nat (ord "8"%char - i))) EmptyString).

(** X12: every square of the board has a name that converts back to it:
    for a row [i] and a column [j] in [0, 8), the two characters
    [chr(ord('a') + j)] and [chr(ord('8') - i)] convert to [(i, j)]. *)
Theorem square_name_converts (i j : Z) (Hi : 0 <= i < 8) (Hj : 0 <= j < 8) :
  _convert_square_to_indices (square_name i j) = inr (i, j).
Proof.
  assert (i = 0 \/ i = 1 \/ i = 2 \/ i = 3 \/ i = 4 \/ i = 5 \/ i = 6 \/ i = 7)
    by lia.
  assert (j = 0 \/ j = 1 \/ j = 2 \/ j = 3 \/ j = 4 \/ j = 5 \/ j = 6 \/ j = 7)
    by lia.
  repeat match goal with H : _ \/ _ |- _ => destruct H end; subst; vm_compute;
    reflexivity.
Qed.

(* ------------------------------------------------------------------ *)
(** ** Rank 9 *)

(** When every check of the gate passes, [make_move] runs the move. *)
Lemma make_move_gate g s1 s2 p sr sc nr nc :
  passes_gate g s1 s2 p sr sc nr nc ->
  make_move s1 s2 g = execute_move p sr sc nr nc g.
Proof.
  intros (Hu & H1 & H2 & Hnr & Hnc & Hp & Ho & Hv).
  unfold make_move, st_bind, get_state, get_turn, get_cell, lift, reads, st_ret.
  rewrite Hu. cbn [gs_eqb negb]. rewrite H1. cbn. rewrite H2. cbn.
  replace ((0 <=? nr) && (nr <? 8) && (0 <=? nc) && (nc <? 8)) with true
    by (symmetry; rewrite !andb_true_iff, !Z.leb_le, !Z.ltb_lt; lia).
  cbn [negb]. rewrite Hp. cbn. rewrite Ho, Hv. reflexivity.
Qed.

(** After an accepted move the origin square is empty. *)
Lemma execute_origin_empty g p sr sc nr nc g' :
  wf_board (_board g) -> -8 <= sr < 8 -> -8 <= sc < 8 -> 0 <= nr < 8 -> 0 <= nc < 8 ->
  execute_move p sr sc nr nc g = (inr true, g') ->
  wf_board (_board g') /\ get2 (_board g') sr sc = inr " "%char.
Proof.
  intros Hb Hsr Hsc Hnr Hnc Hx.
  destruct (get2_ok (_board g) nr nc Hb ltac:(lia) ltac:(lia)) as [y Hy].
  destruct (apply_move_spec g p sr sc nr nc y Hb Hsr Hsc Hnr Hnc Hy)
    as (b1 & b2 & _ & Hs2 & Hb1 & Hb2 & Ha).
  destruct (set2_ok b1 sr sc " " Hb1 Hsr Hsc) as (b2' & Hs2' & _ & Hcl2).
  rewrite Hs2 in Hs2'. injection Hs2' as <-.
  assert (Ho : get2 b2 sr sc = inr " "%char) by (rewrite Hcl2, same_sq_refl by lia; reflexivity).
  destruct (execute_move_split _ _ _ _ _ _ _ _ Hx)
    as [g1 [(Ha' & _ & ->) | (e & Ha' & E & _)]]; [|discriminate E].
  destruct (turn_updated_board g1) as [-> _].
  rewrite Ha in Ha'. destruct (ceq y " ").
  - injection Ha' as <-. cbn [_board moved]. auto.
  - rewrite explosion_flat in Ha'.
    assert (Hrange : forall q, q ∈ blast_squares nr nc -> 0 <= fst q < 8 /\ 0 <= snd q < 8).
    { intros q Hq. apply blast_squares_In in Hq. unfold in_blast in Hq. lia. }
    destruct (explode_list_spec (blast_squares nr nc) (moved g b2 p y) Hb2
                (sorted_NoDup _ (blast_squares_sorted nr nc)) Hrange)
      as (g3 & Hrun & Hb3 & _ & _ & Hcell).
    rewrite Ha' in Hrun. injection Hrun as <-. split; [exact Hb3|].
    rewrite Hcell by lia. cbn [_board moved]. rewrite Ho.
    destruct (hits (blast_squares nr nc) sr sc && non_pawn (inr " "%char)); reflexivity.
Qed.

(** X13: rank "9" names row [-1], which Python indexing turns into the
    bottom row, and the rook's vertical scan from row [-1] to row [0] looks
    at no square.  So on White's turn a rook on the bottom row of a column
    [a]..[h] is moved by naming its square with rank "9" and the top square
    of the same column as destination: the call returns [True] whatever
    stands between, provided the top square is empty or holds a black
    piece, and the rook's square is empty afterwards. *)
Theorem rank_nine_rook_jump (g : ChessVar) (c d : ascii) (j : Z)
  (Hb : wf_board (_board g)) (Hu : _game_state g = UNFINISHED)
  (Ht : _current_turn g = W)
  (Hj : j = ord c - ord "a"%char) (Hjr : 0 <= j < 8)
  (Hr : get2 (_board g) 7 j = inr "R"%char)
  (Hd : get2 (_board g) 0 j = inr d) (Hdc : d = " "%char \/ islower d = true) :
  exists g',
    make_move (String c (String "9" EmptyString)) (String c (String "8" EmptyString)) g
    = (inr true, g') /\
    get2 (_board g') 7 j = inr " "%char.
Proof.
  assert (Hr' : get2 (_board g) (-1) j = inr "R"%char).
  { rewrite get2_mod by (auto; lia). rewrite (Z.mod_small j) by lia. exact Hr. }
  assert (Hv : _is_valid_move (_board g) (_current_turn g) "R" (-1) j 0 j = inr true).
  { unfold _is_valid_move.
    assert (E1 : ceq (lower "R") "k" = false) by reflexivity.
    assert (E2 : ceq (lower "R") "p" = false) by reflexivity.
    assert (E3 : ceq (lower "R") "r" = true) by reflexivity.
    assert (E4 : (-1 =? 0) = false) by reflexivity.
    assert (E5 : py_range (-1 + step_of (-1) 0) 0 (step_of (-1) 0) = []) by reflexivity.
    rewrite E1, E2, E3, Z.eqb_refl, E4. cbn [negb andb]. cbv zeta. rewrite E5.
    cbn [all_clear xret xbind]. unfold dest_ok. rewrite Hd.
    cbn [xbind xret]. destruct Hdc as [-> | Hl]; [reflexivity|].
    assert (E6 : islower "R" = false) by reflexivity.
    rewrite Hl, E6. cbn [Bool.eqb negb]. rewrite orb_true_r. reflexivity. }
  rewrite make_move_gate with (p := "R"%char) (sr := -1) (sc := j) (nr := 0) (nc := j).
  - destruct (execute_move_ok g "R" (-1) j 0 j Hb ltac:(lia) ltac:(lia) ltac:(lia) Hjr)
      as [g' Hx].
    exists g'. split; [exact Hx|].
    destruct (execute_origin_empty g "R" (-1) j 0 j g' Hb ltac:(lia) ltac:(lia)
                ltac:(lia) Hjr Hx) as [Hb' Ho].
    rewrite get2_mod in Ho by (auto; lia). rewrite (Z.mod_small j) in Ho by lia. exact Ho.
  - unfold passes_gate. conj_split; auto; try lia.
    all: try (cbn; subst j; reflexivity).
    rewrite Ht. reflexivity.
Qed.

(* ------------------------------------------------------------------ *)
(** ** [print_board] *)

(** [print_board] prints [" ".join(row)] for each row, then an empty line
    from the final [print()]: its output, as the list of printed lines.
    The object is left as it is. *)
Definition print_board (g : ChessVar) : list string :=
  map (fun row => String.concat " " (map (fun c => String c EmptyString) row)) (_board g)
  ++ [EmptyString].

Lemma join_get_even (row : list ascii) (j : nat) :
  String.get (2 * j) (String.concat " " (map (fun c => String c EmptyString) row))
  = row !! j.
Proof.
  revert j. induction row as [|x row IH]; intros j; [reflexivity|].
  destruct row as [|y row].
  - destruct j; reflexivity.
  - destruct j as [|j]; [reflexivity|].
    replace (2 * S j)%nat with (S (S (2 * j))) by lia. apply IH.
Qed.

Lemma join_get_odd (row : list ascii) (j : nat) :
  (S j < List.length row)%nat ->
  String.get (2 * j + 1) (String.concat " " (map (fun c => String c EmptyString) row))
  = Some " "%char.
Proof.
  revert j. induction row as [|x row IH]; intros j Hj; cbn in Hj; [lia|].
  destruct row as [|y row]; cbn in Hj; [lia|].
  destruct j as [|j]; [reflexivity|].
  replace (2 * S j + 1)%nat with (S (S (2 * j + 1))) by lia. apply IH. cbn. lia.
Qed.

Lemma join_length (row : list ascii) :
  String.length (String.concat " " (map (fun c => String c EmptyString) row))
  = (2 * List.length row - 1)%nat.
Proof.
  induction row as [|x row IH]; [reflexivity|].
  destruct row as [|y row]; [reflexivity|].
  change (S (S (String.length (String.concat " "
            (map (fun c => String c EmptyString) (y :: row))))) = (2 * S (List.length (y :: row)) - 1)%nat).
  rewrite IH. cbn [List.length]. lia.
Qed.

(** X14: on a well-formed board [print_board] prints nine lines: the last
    one empty, and for each row [i] a line of 15 characters with the square
    of column [j] at position [2j] and a space between two squares. *)
Theorem print_board_lines (g : ChessVar) (Hb : wf_board (_board g)) :
  List.length (print_board g) = 9%nat /\ print_board g !! 8%nat = Some EmptyString /\
  forall (i j : nat) (x : ascii), (i < 8)%nat -> (j < 8)%nat ->
    get2 (_board g) (Z.of_nat i) (Z.of_nat j) = inr x ->
    exists line, print_board g !! i = Some line /\ String.length line = 15%nat /\
      String.get (2 * j) line = Some x /\
      ((j < 7)%nat -> String.get (2 * j + 1) line = Some " "%char).
Proof.
  pose proof Hb as [Hl Hr]. unfold print_board.
  split; [rewrite length_app, length_map, Hl; reflexivity|].
  split.
  { rewrite lookup_app_r by (rewrite length_map; lia).
    rewrite length_map, Hl. reflexivity. }
  intros i j x Hi Hj Hx.
  apply get2_via_cell in Hx; [|exact Hb|lia|lia].
  rewrite !nidx_id, !Nat2Z.id in Hx by lia.
  unfold cell in Hx. destruct (_board g !! i) as [row|] eqn:Erow; [|discriminate Hx].
  cbn in Hx.
  assert (Hlen : List.length row = 8%nat) by (rewrite Forall_lookup in Hr; eauto).
  eexists. split.
  { rewrite lookup_app_l by (rewrite length_map; lia).
    change (map ?f (_board g)) with (f <$> _board g). rewrite list_lookup_fmap, Erow.
    reflexivity. }
  split; [rewrite join_length, Hlen; reflexivity|].
  split; [rewrite join_get_even; exact Hx|].
  intros Hj7. apply join_get_odd. lia.
Qed.

(* ------------------------------------------------------------------ *)
(** ** Instances of the properties above *)

(** White's rook on a1, bishop on c1 and king on e1; Black's king on e8. *)
Definition sample_board : Board :=
  board_of ["    k   "; "        "; "        "; "        ";
            "        "; "        "; "        "; "R B K   "]%string.

Lemma valid_move_destination_witness :
  _is_valid_move initial_board W "N" 7 6 5 5 = inr true /\
  ~ (ceq (lower "N") "n" = true /\ Z.abs (5 - 7) = 1 /\ Z.abs (5 - 6) = 2) /\
  exists d, get2 initial_board 5 5 = inr d /\ (d = " "%char \/ islower d <> islower "N").
Proof.
  assert (H : _is_valid_move initial_board W "N" 7 6 5 5 = inr true) by (vm_compute; reflexivity).
  assert (Hn : ~ (ceq (lower "N") "n" = true /\ Z.abs (5 - 7) = 1 /\ Z.abs (5 - 6) = 2))
    by (intros (_ & _ & E); discriminate E).
  split; [exact H|]. split; [exact Hn|].
  exact (valid_move_destination initial_board W "N" 7 6 5 5 H Hn).
Defined.

Lemma pawn_move_rules_witness :
  ceq (lower "P") "p" = true /\
  _is_valid_move initial_board W "P" 6 4 4 4 = inr true /\
  let fwd := if turn_eqb W W then -1 else 1 in
  (4 = 4 /\ 4 = 6 + fwd /\ get2 initial_board 4 4 = inr " "%char) \/
  (4 = 4 /\ 6 = (if turn_eqb W W then 6 else 1) /\ 4 = 6 + 2 * fwd /\
   get2 initial_board 4 4 = inr " "%char /\ get2 initial_board (6 + fwd) 4 = inr " "%char) \/
  (Z.abs (4 - 4) = 1 /\ 4 = 6 + fwd /\
   exists d, get2 initial_board 4 4 = inr d /\ d <> " "%char /\ islower d <> islower "P").
Proof.
  assert (Hp : ceq (lower "P") "p" = true) by reflexivity.
  assert (H : _is_valid_move initial_board W "P" 6 4 4 4 = inr true) by (vm_compute; reflexivity).
  split; [exact Hp|]. split; [exact H|].
  exact (pawn_move_rules initial_board W "P" 6 4 4 4 Hp H).
Defined.

Lemma straight_path_clear_witness :
  _is_valid_move sample_board W "R" 7 0 2 0 = inr true /\
  (ceq (lower "R") "r" = true \/ ceq (lower "R") "q" = true) /\
  (7 = 2 -> forall c, 0 < c < 0 \/ 0 < c < 0 -> get2 sample_board 7 c = inr " "%char) /\
  (7 <> 2 -> 0 = 0 -> forall r, 7 < r < 2 \/ 2 < r < 7 -> get2 sample_board r 0 = inr " "%char).
Proof.
  assert (H : _is_valid_move sample_board W "R" 7 0 2 0 = inr true) by (vm_compute; reflexivity).
  assert (Hk : ceq (lower "R") "r" = true \/ ceq (lower "R") "q" = true) by (left; reflexivity).
  split; [exact H|]. split; [exact Hk|].
  exact (straight_path_clear sample_board W "R" 7 0 2 0 H Hk).
Defined.

Lemma diagonal_path_clear_witness :
  _is_valid_move sample_board W "B" 7 2 4 5 = inr true /\
  (ceq (lower "B") "b" = true \/ ceq (lower "B") "q" = true) /\ 7 <> 4 /\ 2 <> 5 /\
  forall k, 0 < k < Z.abs (4 - 7) ->
    get2 sample_board (7 + k * step_of 7 4) (2 + k * step_of 2 5) = inr " "%char.
Proof.
  assert (H : _is_valid_move sample_board W "B" 7 2 4 5 = inr true) by (vm_compute; reflexivity).
  assert (Hk : ceq (lower "B") "b" = true \/ ceq (lower "B") "q" = true) by (left; reflexivity).
  assert (Hr : 7 <> 4) by lia. assert (Hc : 2 <> 5) by lia.
  split; [exact H|]. split; [exact Hk|]. split; [exact Hr|]. split; [exact Hc|].
  exact (diagonal_path_clear sample_board W "B" 7 2 4 5 H Hk Hr Hc).
Defined.

Lemma make_move_same_square_witness :
  wf_board (_board new_ChessVar) /\ _convert_square_to_indices "e2" = inr (6, 4) /\
  0 <= 6 < 8 /\ 0 <= 4 < 8 /\
  make_move "e2" "e2" new_ChessVar = (inr false, new_ChessVar).
Proof.
  assert (Hb : wf_board (_board new_ChessVar)) by (vm_compute; repeat constructor).
  assert (Hs : _convert_square_to_indices "e2" = inr (6, 4)) by reflexivity.
  assert (Hr : 0 <= 6 < 8) by lia. assert (Hc : 0 <= 4 < 8) by lia.
  split; [exact Hb|]. split; [exact Hs|]. split; [exact Hr|]. split; [exact Hc|].
  exact (make_move_same_square new_ChessVar "e2" 6 4 Hb Hs Hr Hc).
Defined.

Lemma make_move_moves_own_piece_witness :
  let g' := snd (make_move "e2" "e4" new_ChessVar) in
  make_move "e2" "e4" new_ChessVar = (inr true, g') /\
  _convert_square_to_indices "e2" = inr (6, 4) /\
  exists piece, get2 (_board new_ChessVar) 6 4 = inr piece /\
    (_current_turn new_ChessVar = W -> isupper piece = true) /\
    (_current_turn new_ChessVar = B -> islower piece = true).
Proof.
  intro g'.
  assert (H : make_move "e2" "e4" new_ChessVar = (inr true, g')) by (vm_compute; reflexivity).
  assert (Hs : _convert_square_to_indices "e2" = inr (6, 4)) by reflexivity.
  split; [exact H|]. split; [exact Hs|].
  exact (make_move_moves_own_piece new_ChessVar g' "e2" "e4" 6 4 H Hs).
Defined.

Lemma make_move_no_new_pieces_witness :
  let g' := snd (make_move "e2" "e4" new_ChessVar) in
  wf_board (_board new_ChessVar) /\
  make_move "e2" "e4" new_ChessVar = (inr true, g') /\ "P"%char <> " "%char /\
  (count_piece "P" (_board g') <= count_piece "P" (_board new_ChessVar))%nat.
Proof.
  intro g'.
  assert (Hb : wf_board (_board new_ChessVar)) by (vm_compute; repeat constructor).
  assert (H : make_move "e2" "e4" new_ChessVar = (inr true, g')) by (vm_compute; reflexivity).
  assert (HX : "P"%char <> " "%char) by discriminate.
  split; [exact Hb|]. split; [exact H|]. split; [exact HX|].
  exact (make_move_no_new_pieces new_ChessVar g' "e2" "e4" (inr true) "P" Hb H HX).
Defined.

(** White's pawn e4 facing Black's pawn d5. *)
Definition pawn_duel : ChessVar := run_moves [("e2", "e4"); ("d7", "d5")]%string new_ChessVar.

Lemma capture_move_effect_witness :
  let g' := snd (make_move "e4" "d5" pawn_duel) in
  wf_board (_board pawn_duel) /\
  make_move "e4" "d5" pawn_duel = (inr true, g') /\
  _convert_square_to_indices "e4" = inr (4, 4) /\
  _convert_square_to_indices "d5" = inr (3, 3) /\
  get2 (_board pawn_duel) 3 3 = inr "p"%char /\ "p"%char <> " "%char /\
  exists piece, get2 (_board pawn_duel) 4 4 = inr piece /\
    get2 (_board g') 4 4 = inr " "%char /\
    get2 (_board g') 3 3 = inr (if ceq (lower piece) "p" then piece else " "%char) /\
    (forall i j, 0 <= i < 8 -> 0 <= j < 8 ->
       ~ in_blast 3 3 i j -> same_sq 4 4 i j = false ->
       get2 (_board g') i j = get2 (_board pawn_duel) i j).
Proof.
  intro g'.
  assert (Hb : wf_board (_board pawn_duel)) by (vm_compute; repeat constructor).
  assert (H : make_move "e4" "d5" pawn_duel = (inr true, g')) by (vm_compute; reflexivity).
  assert (H1 : _convert_square_to_indices "e4" = inr (4, 4)) by reflexivity.
  assert (H2 : _convert_square_to_indices "d5" = inr (3, 3)) by reflexivity.
  assert (Hy : get2 (_board pawn_duel) 3 3 = inr "p"%char) by (vm_compute; reflexivity).
  assert (Hcap : "p"%char <> " "%char) by discriminate.
  split; [exact Hb|]. split; [exact H|]. split; [exact H1|]. split; [exact H2|].
  split; [exact Hy|]. split; [exact Hcap|].
  exact (capture_move_effect pawn_duel g' "e4" "d5" 4 4 3 3 "p" Hb H H1 H2 Hy Hcap).
Defined.

Lemma game_ends_only_on_capture_witness :
  let g := run_moves knight_line new_ChessVar in
  let g' := snd (make_move "d4" "e2" g) in
  wf_board (_board g) /\ _game_state g = UNFINISHED /\
  make_move "d4" "e2" g = (inr true, g') /\ _game_state g' <> UNFINISHED /\
  _convert_square_to_indices "e2" = inr (6, 4) /\
  inr true = @inr exn bool true /\ exists y, get2 (_board g) 6 4 = inr y /\ y <> " "%char.
Proof.
  intros g g'.
  assert (Hb : wf_board (_board g)) by (vm_compute; repeat constructor).
  assert (Hu : _game_state g = UNFINISHED) by (vm_compute; reflexivity).
  assert (H : make_move "d4" "e2" g = (inr true, g')) by (vm_compute; reflexivity).
  assert (Hend : _game_state g' <> UNFINISHED) by (vm_compute; discriminate).
  assert (H2 : _convert_square_to_indices "e2" = inr (6, 4)) by reflexivity.
  split; [exact Hb|]. split; [exact Hu|]. split; [exact H|]. split; [exact Hend|].
  split; [exact H2|].
  exact (game_ends_only_on_capture g g' "d4" "e2" (inr true) 6 4 Hb Hu H Hend H2).
Defined.

Lemma explosion_idempotent_witness :
  let g1 := snd (_explosion 0 4 new_ChessVar) in
  wf_board (_board new_ChessVar) /\ _explosion 0 4 new_ChessVar = (inr tt, g1) /\
  _explosion 0 4 g1 = (inr tt, g1).
Proof.
  intro g1.
  assert (Hb : wf_board (_board new_ChessVar)) by (vm_compute; repeat constructor).
  assert (H : _explosion 0 4 new_ChessVar = (inr tt, g1)) by (vm_compute; reflexivity).
  split; [exact Hb|]. split; [exact H|].
  exact (explosion_idempotent new_ChessVar g1 0 4 Hb H).
Defined.

Lemma square_name_converts_witness :
  0 <= 6 < 8 /\ 0 <= 4 < 8 /\ _convert_square_to_indices (square_name 6 4) = inr (6, 4).
Proof.
  assert (Hi : 0 <= 6 < 8) by lia. assert (Hj : 0 <= 4 < 8) by lia.
  split; [exact Hi|]. split; [exact Hj|].
  exact (square_name_converts 6 4 Hi Hj).
Defined.

Lemma rank_nine_rook_jump_witness :
  wf_board (_board new_ChessVar) /\ _game_state new_ChessVar = UNFINISHED /\
  _current_turn new_ChessVar = W /\ 0 = ord "a"%char - ord "a"%char /\ 0 <= 0 < 8 /\
  get2 (_board new_ChessVar) 7 0 = inr "R"%char /\
  get2 (_board new_ChessVar) 0 0 = inr "r"%char /\
  ("r"%char = " "%char \/ islower "r" = true) /\
  exists g',
    make_move "a9" "a8" new_ChessVar = (inr true, g') /\
    get2 (_board g') 7 0 = inr " "%char.
Proof.
  assert (Hb : wf_board (_board new_ChessVar)) by (vm_compute; repeat constructor).
  assert (Hu : _game_state new_ChessVar = UNFINISHED) by reflexivity.
  assert (Ht : _current_turn new_ChessVar = W) by reflexivity.
  assert (Hj : 0 = ord "a"%char - ord "a"%char) by reflexivity.
  assert (Hjr : 0 <= 0 < 8) by lia.
  assert (Hr : get2 (_board new_ChessVar) 7 0 = inr "R"%char) by reflexivity.
  assert (Hd : get2 (_board new_ChessVar) 0 0 = inr "r"%char) by reflexivity.
  assert (Hdc : "r"%char = " "%char \/ islower "r" = true) by (right; reflexivity).
  split; [exact Hb|]. split; [exact Hu|]. split; [exact Ht|]. split; [exact Hj|].
  split; [exact Hjr|]. split; [exact Hr|]. split; [exact Hd|]. split; [exact Hdc|].
  exact (rank_nine_rook_jump new_ChessVar "a" "r" 0 Hb Hu Ht Hj Hjr Hr Hd Hdc).
Defined.

Lemma print_board_lines_witness :
  wf_board (_board new_ChessVar) /\
  List.length (print_board new_ChessVar) = 9%nat /\
  print_board new_ChessVar !! 8%nat = Some EmptyString /\
  forall (i j : nat) (x : ascii), (i < 8)%nat -> (j < 8)%nat ->
    get2 (_board new_ChessVar) (Z.of_nat i) (Z.of_nat j) = inr x ->
    exists line, print_board new_ChessVar !! i = Some line /\ String.length line = 15%nat /\
      String.get (2 * j) line = Some x /\
      ((j < 7)%nat -> String.get (2 * j + 1) line = Some " "%char).
Proof.
  assert (Hb : wf_board (_board new_ChessVar)) by (vm_compute; repeat constructor).
  split; [exact Hb|]. exact (print_board_lines new_ChessVar Hb).
Defined.
